(* Shallow embedding of the persistent record store of the DHT
   (class Persistent: onlookup, onfindpeer, onannounce, onunannounce,
   _onrefresh, onmutableget, onmutableput, onimmutableget,
   onimmutableput, and the static signMutable, signAnnounce and
   signUnannounce) and of the connection/hole-punch protocol it serves.

   Buffers are lists of bytes.  The caches keyed by `toString('hex')`
   are gmaps over strings.  Cryptography (sodium) and the compact
   encodings of ./messages are parameters bundled in the class [Env]:
   every theorem holds for every choice of them. *)

From Stdlib Require Import Strings.Byte NArith.
From stdpp Require Import base gmap strings list.

Import ListNotations.

#[global] Instance byte_eq_decision : EqDecision byte := Byte.byte_eq_dec.

Abbreviation bytes := (list byte).

Definition bytes_eqb (a b : bytes) : bool := bool_decide (a = b).

(** [Buffer.toString('hex')]: two lowercase hex digits per byte. *)
Definition hex_digit (n : N) : Ascii.ascii :=
  Ascii.ascii_of_N (if (n <? 10)%N then 48 + n else 87 + n)%N.

Definition byte_hex (b : byte) : string :=
  let n := Byte.to_N b in
  String (hex_digit (n / 16)%N) (String (hex_digit (n mod 16)%N) EmptyString).

Fixpoint hex (bs : bytes) : string :=
  match bs with
  | [] => EmptyString
  | b :: r => String.append (byte_hex b) (hex r)
  end.

(** const EMPTY = Buffer.alloc(0) *)
Definition EMPTY : bytes := [].

(** Wire error codes (constants.js, listed in the spec). *)
Inductive error_code :=
  | SEQ_REUSED | SEQ_TOO_LOW | INVALID_SIGNATURE
  | PEER_NOT_FOUND | HOLEPUNCH_ABORTED | HOLEPUNCH_TIMEOUT.

(** An ipv4 address with a port, as in relayAddresses and req.from. *)
Record ipv4_address := { host : string; port : N }.

(** m.peer *)
Record peer := { publicKey : bytes; relayAddresses : list ipv4_address }.

(** m.announce: every field optional (null when absent). *)
Record announce := {
  ann_peer : option peer;
  ann_refresh : option bytes;
  ann_signature : option bytes }.

(** m.mutablePutRequest; [mp_value] is null when decoded empty. *)
Record mutable_put_request := {
  mp_publicKey : bytes;
  mp_seq : N;
  mp_value : option bytes;
  mp_signature : bytes }.

(** A request handed to a handler by the RPC layer. *)
Record request := {
  target : option bytes;
  token : option bytes;
  value : option bytes;
  from : ipv4_address }.

(** What a handler does with the request: nothing ([Silent], the
    handler returns), [req.reply(v)], [req.error(code)], or it raises
    an exception out of the handler. *)
Inductive response :=
  | Silent
  | Reply (v : option bytes)
  | Error (e : error_code)
  | Raises.

(** The external primitives.  [encode_absent_peer] is
    [c.encode(m.peer, null)] and [encode_mutableGetResponse_buffer b] is
    [c.encode(m.mutableGetResponse, b)] applied to a stored Buffer [b];
    [None] means the encoder raises. *)
Class Env := {
  crypto_generichash : bytes -> bytes;
  crypto_generichash_batch : list bytes -> bytes -> bytes;
  crypto_generichash_keyed : bytes -> bytes -> bytes;
  crypto_sign_verify_detached : bytes -> bytes -> bytes -> bool;
  NS_ANNOUNCE : bytes;
  NS_UNANNOUNCE : bytes;
  NS_MUTABLE_PUT : bytes;
  dht_id : bytes;
  encode_peer : peer -> bytes;
  encode_absent_peer : option bytes;
  encode_rawArray : list bytes -> bytes;
  encode_mutableSignable : N -> bytes -> bytes;
  encode_mutableGetResponse : N -> bytes -> bytes -> bytes;
  encode_mutableGetResponse_buffer : bytes -> option bytes;
  decode_announce : bytes -> option announce;
  decode_mutablePutRequest : bytes -> option mutable_put_request;
  decode_uint : bytes -> option N }.

#[local] Set Warnings "-register-all".

(** A JavaScript value, as far as onmutableput inspects one. *)
Inductive jsval :=
  | JsUndefined
  | JsNumber (n : N)
  | JsBuffer (b : bytes)
  | JsObject (fields : list (string * jsval)).

(** Property read [v.name]: a Buffer has no [seq] or [value] property. *)
Definition js_prop (v : jsval) (name : string) : jsval :=
  match v with
  | JsObject fs =>
      match list_find (fun f => f.1 = name) fs with
      | Some (_, (_, x)) => x
      | None => JsUndefined
      end
  | _ => JsUndefined
  end.

Definition js_truthy (v : jsval) : bool :=
  match v with
  | JsUndefined => false
  | JsNumber n => negb (n =? 0)%N
  | JsBuffer _ | JsObject _ => true
  end.

(** [n === v] for a number [n]. *)
Definition js_strict_eq_num (n : N) (v : jsval) : bool :=
  match v with JsNumber m => (n =? m)%N | _ => false end.

(** [n < v] for a number [n]: undefined converts to NaN, so false. *)
Definition js_lt_num (n : N) (v : jsval) : bool :=
  match v with JsNumber m => (n <? m)%N | _ => false end.

(** The Router table (lib/router.js). *)
Record router_entry := {
  relay : ipv4_address;
  record : bytes;
  onconnect : option nat;
  onholepunch : option nat }.

(** Modelled from the spec: the Router table of lib/router.js, which maps
    each target to its entry; a target may be named by its Buffer or by
    its hex string, both naming the same slot. *)
Inductive target_ref := ByHex (k : string) | ByBuf (b : bytes).

Definition router_slot (r : target_ref) : string :=
  match r with ByHex k => k | ByBuf b => hex b end.

Definition router_get (rt : gmap string router_entry) (r : target_ref)
  : option router_entry := rt !! router_slot r.

(** Modelled from the spec: the announce LRU (record-cache), keyed by
    [(target, publicKey)], one slot per key, most recent first. *)
Definition record_cache := list (string * bytes * bytes).

Definition rc_remove (k : string) (pk : bytes) (c : record_cache) : record_cache :=
  filter (fun e => ~ (e.1.1 = k /\ e.1.2 = pk)) c.

Definition rc_add (k : string) (pk : bytes) (r : bytes) (c : record_cache)
  : record_cache := (k, pk, r) :: rc_remove k pk c.

(** [records.get(k, n)]: up to [n] records stored for [k]. *)
Definition rc_get (k : string) (n : nat) (c : record_cache) : list bytes :=
  take n (map (fun e => e.2) (filter (fun e => e.1.1 = k) c)).

(** An entry of the refresh cache: [{ k, record, announceSelf }]. *)
Record refresh_entry := {
  rf_k : string;
  rf_record : bytes;
  rf_announceSelf : bool }.

(** The store of one node, with the Router table of its DHT. *)
Record persistent := {
  router : gmap string router_entry;
  records : record_cache;
  refreshes : gmap string refresh_entry;
  mutables : gmap string bytes;
  immutables : gmap string bytes }.

Definition set_router (r : gmap string router_entry) (st : persistent) :=
  {| router := r; records := records st; refreshes := refreshes st;
     mutables := mutables st; immutables := immutables st |}.
Definition set_records (c : record_cache) (st : persistent) :=
  {| router := router st; records := c; refreshes := refreshes st;
     mutables := mutables st; immutables := immutables st |}.
Definition set_refreshes (f : gmap string refresh_entry) (st : persistent) :=
  {| router := router st; records := records st; refreshes := f;
     mutables := mutables st; immutables := immutables st |}.
Definition set_mutables (m : gmap string bytes) (st : persistent) :=
  {| router := router st; records := records st; refreshes := refreshes st;
     mutables := m; immutables := immutables st |}.
Definition set_immutables (m : gmap string bytes) (st : persistent) :=
  {| router := router st; records := records st; refreshes := refreshes st;
     mutables := mutables st; immutables := m |}.

Section Persistent.
Context {E : Env}.

(** function decode (enc, val): [val && c.decode(enc, val)], null when
    decoding raises. *)
Definition decode {A} (dec : bytes -> option A) (val : option bytes) : option A :=
  match val with None => None | Some b => dec b end.

(** [c.encode(m.peer, ann.peer)] for a peer that may be absent. *)
Definition encode_peer_js (p : option peer) : option bytes :=
  match p with Some p => Some (encode_peer p) | None => encode_absent_peer end.

(** function annSignable (target, token, id, ann, ns) *)
Definition annSignable (t tok id : bytes) (ann : announce) (ns : bytes)
  : option bytes :=
  match encode_peer_js (ann_peer ann) with
  | None => None
  | Some pe =>
      Some (crypto_generichash_batch
              [t; id; tok; pe; default EMPTY (ann_refresh ann)] ns)
  end.

(** function verifyMutable (signature, seq, value, publicKey) *)
Definition verifyMutable (sg : bytes) (seq : N) (v pk : bytes) : bool :=
  let signable :=
    crypto_generichash_keyed (encode_mutableSignable seq v) NS_MUTABLE_PUT in
  crypto_sign_verify_detached sg signable pk.

(** onlookup (req) *)
Definition onlookup (st : persistent) (req : request) : persistent * response :=
  match target req with
  | None => (st, Silent)
  | Some t =>
      let k := hex t in
      let recs := rc_get k 20 (records st) in
      let recs' :=
        match router_get (router st) (ByHex k) with
        | Some fwd => if length recs <? 20 then recs ++ [record fwd] else recs
        | None => recs
        end in
      (st, Reply (match recs' with [] => None | _ => Some (encode_rawArray recs') end))
  end.

(** onfindpeer (req) *)
Definition onfindpeer (st : persistent) (req : request) : persistent * response :=
  match target req with
  | None => (st, Silent)
  | Some t =>
      (st, Reply (match router_get (router st) (ByBuf t) with
                  | Some fwd => Some (record fwd)
                  | None => None
                  end))
  end.

(** unannounce (target, publicKey) *)
Definition unannounce (st : persistent) (t pk : bytes) : persistent :=
  let k := hex t in
  let rt := if bytes_eqb (crypto_generichash pk) t then delete k (router st)
            else router st in
  set_records (rc_remove k pk (records st)) (set_router rt st).

(** onunannounce (req) *)
Definition onunannounce (st : persistent) (req : request) : persistent * response :=
  match target req, token req with
  | Some t, Some tok =>
      match decode decode_announce (value req) with
      | None => (st, Silent)
      | Some unann =>
          match ann_peer unann, ann_signature unann with
          | Some p, Some sg =>
              match annSignable t tok dht_id unann NS_UNANNOUNCE with
              | None => (st, Raises)
              | Some signable =>
                  if crypto_sign_verify_detached sg signable (publicKey p)
                  then (unannounce st t (publicKey p), Reply None)
                  else (st, Silent)
              end
          | _, _ => (st, Silent)
          end
      end
  | _, _ => (st, Silent)
  end.

(** The Router entry installed for a stored announce:
    [{ relay: req.from, record, onconnect: null, onholepunch: null }]. *)
Definition forward_entry (req : request) (rec : bytes) : router_entry :=
  {| relay := from req; record := rec; onconnect := None; onholepunch := None |}.

(** _onrefresh (token, req) *)
Definition _onrefresh (st : persistent) (tok : bytes) (req : request)
  : persistent * response :=
  let activeRefresh := hex (crypto_generichash tok) in
  match refreshes st !! activeRefresh with
  | None => (st, Silent)
  | Some r =>
      let k := rf_k r in
      let rec := rf_record r in
      let pk := take 32 rec in
      let st1 :=
        if rf_announceSelf r
        then set_records (rc_remove k pk (records st))
               (set_router (<[k := forward_entry req rec]> (router st)) st)
        else set_records (rc_add k pk rec (records st)) st in
      let st2 :=
        set_refreshes (<[hex tok := r]> (delete activeRefresh (refreshes st1))) st1 in
      (st2, Reply None)
  end.

(** [if (peer.relayAddresses.length > 3) peer.relayAddresses = ....slice(0, 3)] *)
Definition truncate_relays (p : peer) : peer :=
  if 3 <? length (relayAddresses p)
  then {| publicKey := publicKey p; relayAddresses := take 3 (relayAddresses p) |}
  else p.

(** The part of onannounce after the signature check. *)
Definition store_announce (st : persistent) (req : request) (t : bytes)
    (ann : announce) (p0 : peer) : persistent * response :=
  let p := truncate_relays p0 in
  let k := hex t in
  let announceSelf := bytes_eqb (crypto_generichash (publicKey p)) t in
  let rec := encode_peer p in
  let st1 :=
    if announceSelf
    then set_records (rc_remove k (publicKey p) (records st))
           (set_router (<[k := forward_entry req rec]> (router st)) st)
    else set_records (rc_add k (publicKey p) rec (records st)) st in
  let st2 :=
    match ann_refresh ann with
    | Some rf =>
        set_refreshes (<[hex rf := {| rf_k := k; rf_record := rec;
                                      rf_announceSelf := announceSelf |}]>
                         (refreshes st1)) st1
    | None => st1
    end in
  (st2, Reply None).

(** onannounce (req) *)
Definition onannounce (st : persistent) (req : request) : persistent * response :=
  match target req, token req with
  | Some t, Some tok =>
      match decode decode_announce (value req) with
      | None => (st, Silent)
      | Some ann =>
          match annSignable t tok dht_id ann NS_ANNOUNCE with
          | None => (st, Raises)
          | Some signable =>
              match ann_peer ann with
              | None =>
                  match ann_refresh ann with
                  | None => (st, Silent)
                  | Some rf => _onrefresh st rf req
                  end
              | Some p =>
                  match ann_signature ann with
                  | Some sg =>
                      if crypto_sign_verify_detached sg signable (publicKey p)
                      then store_announce st req t ann p
                      else (st, Silent)
                  | None => (st, Silent)
                  end
              end
          end
      end
  | _, _ => (st, Silent)
  end.

(** onmutableget (req) *)
Definition onmutableget (st : persistent) (req : request) : persistent * response :=
  match target req, value req with
  | Some t, Some v =>
      match decode_uint v with
      | None => (st, Silent)
      | Some seq =>
          match mutables st !! hex t with
          | None => (st, Reply None)
          | Some local =>
              match decode_uint local with
              | None => (st, Raises)
              | Some localSeq => (st, Reply (if (localSeq <? seq)%N then None else Some local))
              end
          end
      end
  | _, _ => (st, Silent)
  end.

(** [existing.value && existing.seq === seq &&
     Buffer.compare(value, existing.value) !== 0]; [None]: raises. *)
Definition seq_reused_check (existing : jsval) (seq : N) (v : bytes) : option bool :=
  if js_truthy (js_prop existing "value") then
    if js_strict_eq_num seq (js_prop existing "seq") then
      match js_prop existing "value" with
      | JsBuffer ev => Some (negb (bytes_eqb v ev))
      | _ => None
      end
    else Some false
  else Some false.

(** onmutableput (req) *)
Definition onmutableput (st : persistent) (req : request) : persistent * response :=
  match target req, token req, value req with
  | Some t, Some _, Some _ =>
      match decode decode_mutablePutRequest (value req) with
      | None => (st, Silent)
      | Some p =>
          let pk := mp_publicKey p in
          let seq := mp_seq p in
          let sg := mp_signature p in
          let hash := crypto_generichash pk in
          if negb (bytes_eqb hash t) then (st, Silent) else
          match mp_value p with
          | None => (st, Silent)
          | Some v =>
              if negb (verifyMutable sg seq v pk) then (st, Silent) else
              let k := hex hash in
              let accept :=
                (set_mutables (<[k := encode_mutableGetResponse seq v sg]> (mutables st)) st,
                 Reply None) in
              match mutables st !! k with
              | None => accept
              | Some local =>
                  match encode_mutableGetResponse_buffer local with
                  | None => (st, Raises)
                  | Some ex =>
                      let existing := JsBuffer ex in
                      match seq_reused_check existing seq v with
                      | None => (st, Raises)
                      | Some true => (st, Error SEQ_REUSED)
                      | Some false =>
                          if js_lt_num seq (js_prop existing "seq")
                          then (st, Error SEQ_TOO_LOW)
                          else accept
                      end
                  end
              end
          end
      end
  | _, _, _ => (st, Silent)
  end.

(** onimmutableget (req) *)
Definition onimmutableget (st : persistent) (req : request) : persistent * response :=
  match target req with
  | None => (st, Silent)
  | Some t => (st, Reply (immutables st !! hex t))
  end.

(** onimmutableput (req) *)
Definition onimmutableput (st : persistent) (req : request) : persistent * response :=
  match target req, token req, value req with
  | Some t, Some _, Some v =>
      let hash := crypto_generichash v in
      if negb (bytes_eqb hash t) then (st, Silent)
      else (set_immutables (<[hex hash := v]> (immutables st)) st, Reply None)
  | _, _, _ => (st, Silent)
  end.

End Persistent.

(** The request handlers of the store, by command. *)
Inductive handler :=
  | HLookup | HFindPeer | HAnnounce | HUnannounce
  | HMutableGet | HMutablePut | HImmutableGet | HImmutablePut.

Definition dispatch {E : Env} (h : handler) : persistent -> request -> persistent * response :=
  match h with
  | HLookup => onlookup
  | HFindPeer => onfindpeer
  | HAnnounce => onannounce
  | HUnannounce => onunannounce
  | HMutableGet => onmutableget
  | HMutablePut => onmutableput
  | HImmutableGet => onimmutableget
  | HImmutablePut => onimmutableput
  end.

(** The handlers that store something: they are the ones that check
    [req.token]. *)
Definition is_write (h : handler) : bool :=
  match h with
  | HAnnounce | HUnannounce | HMutablePut | HImmutablePut => true
  | _ => false
  end.



(** Modelled from the spec: the connector (connect), the server's
    connection admission and the hole-puncher (sections 4.2 to 4.4 and
    7), whose code is not among the sources; only the test
    'server choosing to abort holepunch' is.  The relay is a mailbox in
    each direction; the user holepunch hooks are booleans; the firewall
    callback admits every connection. *)
Module Holepunch.

Inductive client_phase :=
  | CIdle | CLookingUp | CRelaying | CPunching | CProbing | COpen | CClosed.

Inductive server_phase := SListening | SNegotiating | SProbing | SOpen | SClosed.

Inductive msg := MConnect | MConnectReply | MHolepunch | MHolepunchReply | MAbort.

Inductive socket_event := EvOpen | EvError (e : error_code) | EvClose.

Record world := {
  cphase : client_phase;
  sphase : server_phase;
  to_server : list msg;
  to_client : list msg;
  client_events : list socket_event;
  server_connections : nat;
  server_hook_calls : nat }.

Definition init : world :=
  {| cphase := CIdle; sphase := SListening; to_server := []; to_client := [];
     client_events := []; server_connections := 0; server_hook_calls := 0 |}.

Definition with_client (c : client_phase) (ts tc : list msg) (ev : list socket_event)
    (w : world) : world :=
  {| cphase := c; sphase := sphase w; to_server := ts; to_client := tc;
     client_events := ev; server_connections := server_connections w;
     server_hook_calls := server_hook_calls w |}.

Definition with_server (s : server_phase) (ts tc : list msg) (conns calls : nat)
    (w : world) : world :=
  {| cphase := cphase w; sphase := s; to_server := ts; to_client := tc;
     client_events := client_events w; server_connections := conns;
     server_hook_calls := calls |}.

Section Protocol.
Variable server_hook client_hook : bool.

(** Client transitions enabled in [w]. *)
Definition client_steps (w : world) : list world :=
  match cphase w, to_client w with
  | CIdle, _ => [with_client CLookingUp (to_server w) (to_client w) (client_events w) w]
  | CLookingUp, _ =>
      [with_client CRelaying (to_server w ++ [MConnect]) (to_client w) (client_events w) w;
       with_client CClosed (to_server w) (to_client w)
         (client_events w ++ [EvError PEER_NOT_FOUND; EvClose]) w]
  | CRelaying, MConnectReply :: rest =>
      if client_hook
      then [with_client CPunching (to_server w ++ [MHolepunch]) rest (client_events w) w]
      else [with_client CClosed (to_server w ++ [MAbort]) rest
              (client_events w ++ [EvError HOLEPUNCH_ABORTED; EvClose]) w]
  | CPunching, MAbort :: rest =>
      [with_client CClosed (to_server w) rest
         (client_events w ++ [EvError HOLEPUNCH_ABORTED; EvClose]) w]
  | CPunching, MHolepunchReply :: rest =>
      [with_client CProbing (to_server w) rest (client_events w) w]
  | CProbing, _ =>
      (match sphase w with
       | SProbing => [{| cphase := COpen; sphase := SOpen; to_server := to_server w;
                to_client := to_client w; client_events := client_events w ++ [EvOpen];
                server_connections := S (server_connections w);
                server_hook_calls := server_hook_calls w |}]
       | _ => []
       end) ++
      [with_client CClosed (to_server w) (to_client w)
         (client_events w ++ [EvError HOLEPUNCH_TIMEOUT; EvClose]) w]
  | _, _ => []
  end.

(** Server transitions enabled in [w]. *)
Definition server_steps (w : world) : list world :=
  match sphase w, to_server w with
  | SListening, MConnect :: rest =>
      [with_server SNegotiating rest (to_client w ++ [MConnectReply])
         (server_connections w) (server_hook_calls w) w]
  | SNegotiating, MHolepunch :: rest =>
      if server_hook
      then [with_server SProbing rest (to_client w ++ [MHolepunchReply])
              (server_connections w) (S (server_hook_calls w)) w]
      else [with_server SClosed rest (to_client w ++ [MAbort])
              (server_connections w) (S (server_hook_calls w)) w]
  | SNegotiating, MAbort :: rest =>
      [with_server SClosed rest (to_client w) (server_connections w) (server_hook_calls w) w]
  | SProbing, _ =>
      [with_server SClosed (to_server w) (to_client w)
         (server_connections w) (server_hook_calls w) w]
  | _, _ => []
  end.

Definition steps (w : world) : list world := client_steps w ++ server_steps w.

Inductive reach : world -> world -> Prop :=
  | reach_refl w : reach w w
  | reach_step w w' w'' : In w' (steps w) -> reach w' w'' -> reach w w''.

End Protocol.

#[global] Instance error_code_eq_dec : EqDecision error_code.
Proof. solve_decision. Defined.
#[global] Instance client_phase_eq_dec : EqDecision client_phase.
Proof. solve_decision. Defined.
#[global] Instance server_phase_eq_dec : EqDecision server_phase.
Proof. solve_decision. Defined.
#[global] Instance msg_eq_dec : EqDecision msg.
Proof. solve_decision. Defined.
#[global] Instance socket_event_eq_dec : EqDecision socket_event.
Proof. solve_decision. Defined.
#[global] Instance world_eq_dec : EqDecision world.
Proof. solve_decision. Defined.

(** Breadth-first enumeration of the worlds reachable from [frontier]. *)
Fixpoint explore (sh ch : bool) (fuel : nat) (frontier seen : list world) : list world :=
  match fuel with
  | O => seen
  | S n =>
      match frontier with
      | [] => seen
      | w :: rest =>
          if bool_decide (w ∈ seen) then explore sh ch n rest seen
          else explore sh ch n (rest ++ steps sh ch w) (w :: seen)
      end
  end.

Definition closed_under (sh ch : bool) (ws : list world) : bool :=
  forallb (fun w => forallb (fun w' => bool_decide (w' ∈ ws)) (steps sh ch w)) ws.

(** The observable outcome the spec requires after a server veto. *)
Definition veto_ok (sh ch : bool) (w : world) : bool :=
  bool_decide (server_connections w = 0) &&
  bool_decide (EvOpen ∉ client_events w) &&
  (if bool_decide (server_hook_calls w = 0) then true
   else match steps sh ch w with
        | [] => bool_decide (client_events w = [EvError HOLEPUNCH_ABORTED; EvClose]) &&
                bool_decide (cphase w = CClosed)
        | _ => true
        end).

(** A path of successive steps from [w]. *)
Fixpoint path_ok (sh ch : bool) (w : world) (ws : list world) : bool :=
  match ws with
  | [] => true
  | w' :: rest => bool_decide (w' ∈ steps sh ch w) && path_ok sh ch w' rest
  end.

(** The run that always takes the first enabled step. *)
Fixpoint run_first (sh ch : bool) (n : nat) (w : world) : list world :=
  match n with
  | O => []
  | S n' =>
      match steps sh ch w with
      | [] => []
      | w' :: _ => w' :: run_first sh ch n' w'
      end
  end.

Definition veto_run_end : world := List.last (run_first false true 10 init) init.

End Holepunch.

(** A concrete environment used to run the handlers on small inputs:
    hashes are concatenations and a signature is the signed message
    followed by the public key.  Decoders return fixed payloads. *)
Definition toy_env (ann : option announce) (mpr : option mutable_put_request) : Env := {|
  crypto_generichash := fun b => b;
  crypto_generichash_batch := fun l ns => concat l ++ ns;
  crypto_generichash_keyed := fun b key => b ++ key;
  crypto_sign_verify_detached := fun sg msg pk => bytes_eqb sg (msg ++ pk);
  NS_ANNOUNCE := [x01];
  NS_UNANNOUNCE := [x02];
  NS_MUTABLE_PUT := [x03];
  dht_id := [x09];
  encode_peer := fun p => publicKey p ++ map (fun _ => x00) (relayAddresses p);
  encode_absent_peer := Some [];
  encode_rawArray := fun l => concat l;
  encode_mutableSignable := fun seq v => repeat x01 (N.to_nat seq) ++ x00 :: v;
  encode_mutableGetResponse := fun seq v sg => repeat x01 (N.to_nat seq) ++ x00 :: v ++ sg;
  encode_mutableGetResponse_buffer := fun b => Some b;
  decode_announce := fun _ => ann;
  decode_mutablePutRequest := fun _ => mpr;
  decode_uint := fun b => Some (N.of_nat (length b)) |}.

Definition addr0 : ipv4_address := {| host := "10.0.0.1"; port := 49737 |}.

Definition empty_store : persistent :=
  {| router := ∅; records := []; refreshes := ∅; mutables := ∅; immutables := ∅ |}.

Definition peer0 : peer :=
  {| publicKey := [x0a; x0b]; relayAddresses := [addr0; addr0; addr0; addr0; addr0] |}.

(** An announce by [peer0] for its own target [hash(publicKey)], signed
    under the toy environment. *)
Definition self_announce (rf : option bytes) : announce :=
  {| ann_peer := Some peer0; ann_refresh := rf;
     ann_signature :=
       Some ((concat [[x0a; x0b]; [x09]; [x07]; encode_peer (Env := toy_env None None) peer0;
                      default EMPTY rf] ++ [x01]) ++ [x0a; x0b]) |}.

Definition ann_req (t : bytes) : request :=
  {| target := Some t; token := Some [x07]; value := Some [x00]; from := addr0 |}.



(** Concrete inputs for the witnesses and counterexamples. *)
Definition E_self : Env := toy_env (Some (self_announce None)) None.

Definition E_none : Env := toy_env None None.

Definition self_record : bytes :=
  @encode_peer E_self (truncate_relays peer0).

(** An unannounce by [peer0] signed under the toy environment. *)
Definition self_unannounce : announce :=
  {| ann_peer := Some peer0; ann_refresh := None;
     ann_signature :=
       Some ((concat [[x0a; x0b]; [x09]; [x07]; encode_peer (Env := E_none) peer0;
                      EMPTY] ++ [x02]) ++ [x0a; x0b]) |}.

Definition E_unann : Env := toy_env (Some self_unannounce) None.

(** A store where [peer0] is installed for its own target, with a
    refresh slot bound under the hash of the token [x05]. *)
Definition store_with_refresh : persistent :=
  {| router := {[hex [x0a; x0b] := forward_entry (ann_req [x0a; x0b]) self_record]};
     records := [];
     refreshes := {[hex [x05] := {| rf_k := hex [x0a; x0b]; rf_record := self_record;
                                    rf_announceSelf := true |}]};
     mutables := ∅; immutables := ∅ |}.

(** An announce carrying only a refresh token. *)
Definition refresh_only : announce :=
  {| ann_peer := None; ann_refresh := Some [x05]; ann_signature := None |}.

Definition E_refresh : Env := toy_env (Some refresh_only) None.




(** A mutable put by the key [x0a] with a signature valid in the toy
    environment. *)
Definition mput_sig (seq : N) (v : bytes) : bytes :=
  (repeat x01 (N.to_nat seq) ++ x00 :: v) ++ [x03] ++ [x0a].

Definition E_mput (seq : N) (v : bytes) : Env :=
  toy_env None (Some {| mp_publicKey := [x0a]; mp_seq := seq; mp_value := Some v;
                        mp_signature := mput_sig seq v |}).

Definition store_with_mutable : persistent :=
  set_mutables {[hex [x0a] := @encode_mutableGetResponse E_none 1 [x61] (mput_sig 1 [x61])]}
    empty_store.

Definition put_req (t v : bytes) : request :=
  {| target := Some t; token := Some [x07]; value := Some v; from := addr0 |}.

Definition store_with_immutable : persistent :=
  set_immutables {[hex [x01] := [x01]]} empty_store.


(** The same environment with an encoder of [m.peer] that raises on an
    absent peer, as the compact encoder does when it reads the fields of
    [null]. *)
Definition with_null_peer (E : Env) : Env := {|
  crypto_generichash := @crypto_generichash E;
  crypto_generichash_batch := @crypto_generichash_batch E;
  crypto_generichash_keyed := @crypto_generichash_keyed E;
  crypto_sign_verify_detached := @crypto_sign_verify_detached E;
  NS_ANNOUNCE := @NS_ANNOUNCE E;
  NS_UNANNOUNCE := @NS_UNANNOUNCE E;
  NS_MUTABLE_PUT := @NS_MUTABLE_PUT E;
  dht_id := @dht_id E;
  encode_peer := @encode_peer E;
  encode_absent_peer := None;
  encode_rawArray := @encode_rawArray E;
  encode_mutableSignable := @encode_mutableSignable E;
  encode_mutableGetResponse := @encode_mutableGetResponse E;
  encode_mutableGetResponse_buffer := @encode_mutableGetResponse_buffer E;
  decode_announce := @decode_announce E;
  decode_mutablePutRequest := @decode_mutablePutRequest E;
  decode_uint := @decode_uint E |}.

(** The refresh-only environment, with that encoder. *)
Definition E_refresh_null : Env := with_null_peer E_refresh.

(** The signing primitive of sodium: [crypto_sign_detached(sig, msg, sk)]
    writes into [sig] the detached signature of [msg] under [sk]. *)
Class SignEnv := { crypto_sign_detached : bytes -> bytes -> bytes }.

Section Signing.
Context {E : Env} {S : SignEnv}.

(** static signMutable (seq, value, secretKey) *)
Definition signMutable (seq : N) (v sk : bytes) : bytes :=
  crypto_sign_detached
    (crypto_generichash_keyed (encode_mutableSignable seq v) NS_MUTABLE_PUT) sk.

(** static signAnnounce (target, token, id, ann, secretKey); [None]: the
    encoding of [ann.peer] raises. *)
Definition signAnnounce (t tok id : bytes) (ann : announce) (sk : bytes) : option bytes :=
  match annSignable t tok id ann NS_ANNOUNCE with
  | None => None
  | Some s => Some (crypto_sign_detached s sk)
  end.

(** static signUnannounce (target, token, id, ann, secretKey) *)
Definition signUnannounce (t tok id : bytes) (ann : announce) (sk : bytes) : option bytes :=
  match annSignable t tok id ann NS_UNANNOUNCE with
  | None => None
  | Some s => Some (crypto_sign_detached s sk)
  end.

End Signing.

#[global] Instance handler_eq_dec : EqDecision handler.
Proof. solve_decision. Defined.

Section Invariants.
Context {E : Env}.

(** Every Router entry holds the encoding of a peer whose public key
    hashes to the entry's key, with at most 3 relay addresses. *)
Definition router_wf (rt : gmap string router_entry) : Prop :=
  map_Forall (fun k e => exists p, record e = encode_peer p /\
     length (relayAddresses p) <= 3 /\ k = hex (crypto_generichash (publicKey p))) rt.

(** Every LRU record is the encoding of a peer with at most 3 relay
    addresses. *)
Definition records_wf (c : record_cache) : Prop :=
  Forall (fun e => exists p, e.2 = encode_peer p /\ length (relayAddresses p) <= 3) c.

(** Every refresh entry holds such a record, and one marked announceSelf
    is keyed by the hash of the peer's public key. *)
Definition refreshes_wf (f : gmap string refresh_entry) : Prop :=
  map_Forall (fun _ r => exists p, rf_record r = encode_peer p /\
     length (relayAddresses p) <= 3 /\
     (rf_announceSelf r = true -> rf_k r = hex (crypto_generichash (publicKey p)))) f.

Definition announces_wf (st : persistent) : Prop :=
  router_wf (router st) /\ records_wf (records st) /\ refreshes_wf (refreshes st).

(** Every mutable record is a mutableGetResponse whose signature
    verifies under a public key hashing to the record's key. *)
Definition mutables_wf (m : gmap string bytes) : Prop :=
  map_Forall (fun k b => exists pk seq v sg, k = hex (crypto_generichash pk) /\
     b = encode_mutableGetResponse seq v sg /\ verifyMutable sg seq v pk = true) m.

(** Every immutable value is stored under the hex of its hash. *)
Definition immutables_wf (m : gmap string bytes) : Prop :=
  map_Forall (fun k v => k = hex (crypto_generichash v)) m.

End Invariants.

(** The toy environment of [toy_env] with a given hash and given
    decoders. *)
Definition toy_env_with (h : bytes -> bytes) (dann : bytes -> option announce)
    (dmp : bytes -> option mutable_put_request) (du : bytes -> option N) : Env := {|
  crypto_generichash := h;
  crypto_generichash_batch := fun l ns => concat l ++ ns;
  crypto_generichash_keyed := fun b key => b ++ key;
  crypto_sign_verify_detached := fun sg msg pk => bytes_eqb sg (msg ++ pk);
  NS_ANNOUNCE := [x01];
  NS_UNANNOUNCE := [x02];
  NS_MUTABLE_PUT := [x03];
  dht_id := [x09];
  encode_peer := fun p => publicKey p ++ map (fun _ => x00) (relayAddresses p);
  encode_absent_peer := Some [];
  encode_rawArray := fun l => concat l;
  encode_mutableSignable := fun seq v => repeat x01 (N.to_nat seq) ++ x00 :: v;
  encode_mutableGetResponse := fun seq v sg => repeat x01 (N.to_nat seq) ++ x00 :: v ++ sg;
  encode_mutableGetResponse_buffer := fun b => Some b;
  decode_announce := dann;
  decode_mutablePutRequest := dmp;
  decode_uint := du |}.

(** The matching toy signer: a signature is the message followed by the
    key, so a secret key signs for the equal public key. *)
Definition toy_sign : SignEnv := {| crypto_sign_detached := fun m sk => m ++ sk |}.

(** A uint read as the number of leading [x01] bytes, matching the toy
    encoding of a mutableGetResponse. *)
Fixpoint leading_ones (b : bytes) : nat :=
  match b with x01 :: r => S (leading_ones r) | _ => O end.

Definition unary_uint (b : bytes) : option N := Some (N.of_nat (leading_ones b)).

Definition req_with (t tok v : bytes) : request :=
  {| target := Some t; token := Some tok; value := Some v; from := addr0 |}.

(** A mutable put of (seq 2, "b") by the key [x0a], signed for the toy
    signer. *)
Definition mput2 : mutable_put_request :=
  {| mp_publicKey := [x0a]; mp_seq := 2; mp_value := Some [x62];
     mp_signature := mput_sig 2 [x62] |}.

Definition E_mget : Env :=
  toy_env_with (fun b => b) (fun _ => None) (fun _ => Some mput2) unary_uint.

(** An environment whose uint decoder rejects the empty buffer, and a
    store holding an empty mutable record. *)
Definition E_raise : Env :=
  toy_env_with (fun b => b) (fun _ => None) (fun _ => None)
    (fun b => match b with [] => None | _ => Some 0%N end).

Definition store_with_empty_mutable : persistent :=
  set_mutables {[hex [x01] := []]} empty_store.

Module HolepunchChecks.
Import Holepunch.

(** Outcome of a client veto: no connection, no open, and a final world
    has the client closed after one error then close, the error being
    HOLEPUNCH_ABORTED once the server has been reached. *)
Definition client_veto_ok (sh : bool) (w : world) : bool :=
  bool_decide (server_connections w = 0) &&
  bool_decide (EvOpen ∉ client_events w) &&
  match steps sh false w with
  | [] =>
      bool_decide (cphase w = CClosed) &&
      match client_events w with
      | [EvError e; EvClose] =>
          bool_decide (sphase w = SListening) || bool_decide (e = HOLEPUNCH_ABORTED)
      | _ => false
      end
  | _ => true
  end.

Definition client_veto_run_end : world := List.last (run_first true false 10 init) init.

End HolepunchChecks.

Section Claims.
Context {E : Env}.

Lemma truncate_relays_spec (p : peer) :
  publicKey (truncate_relays p) = publicKey p /\
  relayAddresses (truncate_relays p) = take 3 (relayAddresses p) /\
  length (relayAddresses (truncate_relays p)) <= 3.
Proof.
  unfold truncate_relays. destruct (3 <? length (relayAddresses p)) eqn:Hl; simpl.
  - rewrite length_take. repeat split; lia.
  - apply Nat.ltb_ge in Hl. rewrite take_ge by lia. repeat split; lia.
Qed.

Lemma rc_remove_gone (k : string) (pk : bytes) (c : record_cache) :
  Forall (fun e => ~ (e.1.1 = k /\ e.1.2 = pk)) (rc_remove k pk c).
Proof.
  unfold rc_remove. apply Forall_forall. intros e He.
  apply list_elem_of_filter in He. tauto.
Qed.

(** C1: an announce carrying a peer stores nothing unless its signature
    verifies over the announce signable
    [BLAKE2b([target, nodeId, token, encode(peer), refresh or empty], NS_ANNOUNCE)];
    when it verifies, the stored record is the encoding of the peer with
    its relayAddresses truncated to at most 3, and it is installed in the
    Router under the target (relay = req.from) with the LRU duplicate
    under (target, publicKey) removed when BLAKE2b(publicKey) = target,
    otherwise it is added to the LRU under (target, publicKey) and the
    Router is left as it was. *)
Theorem onannounce_peer_stores_verified (st : persistent) (req : request)
    (t tok : bytes) (ann : announce) (p : peer) :
  target req = Some t -> token req = Some tok ->
  decode decode_announce (value req) = Some ann -> ann_peer ann = Some p ->
  let signable := crypto_generichash_batch
      [t; dht_id; tok; encode_peer p; default EMPTY (ann_refresh ann)] NS_ANNOUNCE in
  let verified := match ann_signature ann with
                  | Some sg => crypto_sign_verify_detached sg signable (publicKey p)
                  | None => false end in
  (verified = false -> onannounce st req = (st, Silent)) /\
  (verified = true ->
   let p' := truncate_relays p in
   let k := hex t in
   let rec := encode_peer p' in
   let '(st', resp) := onannounce st req in
   resp = Reply None /\
   publicKey p' = publicKey p /\
   relayAddresses p' = take 3 (relayAddresses p) /\
   length (relayAddresses p') <= 3 /\
   (crypto_generichash (publicKey p) = t ->
      router st' = <[k := {| relay := from req; record := rec;
                             onconnect := None; onholepunch := None |}]> (router st) /\
      records st' = rc_remove k (publicKey p) (records st) /\
      Forall (fun e => ~ (e.1.1 = k /\ e.1.2 = publicKey p)) (records st')) /\
   (crypto_generichash (publicKey p) <> t ->
      router st' = router st /\
      records st' = rc_add k (publicKey p) rec (records st))).
Proof.
  intros Ht Htok Hdec Hp signable verified.
  assert (Hon : onannounce st req =
    match ann_signature ann with
    | Some sg => if crypto_sign_verify_detached sg signable (publicKey p)
                 then store_announce st req t ann p else (st, Silent)
    | None => (st, Silent) end).
  { unfold onannounce. rewrite Ht, Htok, Hdec. unfold annSignable, encode_peer_js.
    rewrite Hp. reflexivity. }
  split.
  - intros Hv. rewrite Hon. subst verified.
    destruct (ann_signature ann); [rewrite Hv|]; reflexivity.
  - intros Hv. cbv zeta. rewrite Hon. subst verified.
    destruct (ann_signature ann) as [sg|]; [|discriminate]. rewrite Hv.
    destruct (truncate_relays_spec p) as (Hpk & Hra & Hlen).
    unfold store_announce. rewrite Hpk.
    destruct (bytes_eqb (crypto_generichash (publicKey p)) t) eqn:Hs;
      unfold bytes_eqb in Hs;
      [apply bool_decide_eq_true in Hs | apply bool_decide_eq_false in Hs];
      destruct (ann_refresh ann); simpl; (repeat split; try done; try tauto);
      try (intros; apply rc_remove_gone).
Qed.

Lemma onannounce_self_installs (st : persistent) (req : request)
    (t tok sg : bytes) (ann : announce) (p : peer) :
  target req = Some t -> token req = Some tok ->
  decode decode_announce (value req) = Some ann -> ann_peer ann = Some p ->
  ann_signature ann = Some sg ->
  crypto_sign_verify_detached sg (crypto_generichash_batch
      [t; dht_id; tok; encode_peer p; default EMPTY (ann_refresh ann)] NS_ANNOUNCE)
    (publicKey p) = true ->
  crypto_generichash (publicKey p) = t ->
  router (onannounce st req).1 !! hex t
  = Some (forward_entry req (encode_peer (truncate_relays p))).
Proof.
  intros Ht Htok Hdec Hp Hsg Hv Hh.
  unfold onannounce. rewrite Ht, Htok, Hdec. unfold annSignable, encode_peer_js.
  rewrite Hp, Hsg. simpl. rewrite Hv. unfold store_announce.
  destruct (truncate_relays_spec p) as (Hpk & _ & _). rewrite Hpk, Hh.
  unfold bytes_eqb. rewrite bool_decide_eq_true_2 by reflexivity.
  destruct (ann_refresh ann); simpl; by rewrite lookup_insert_eq.
Qed.

(** C3: findPeer for a target replies with the record of the Router
    entry of that target when there is one, and null otherwise; in
    particular, after a self-announce (BLAKE2b(publicKey) = target) with
    a verifying signature has been stored, findPeer for the same target
    replies with the stored record. *)
Theorem onfindpeer_replies_router_record (st : persistent) (req : request) (t : bytes) :
  target req = Some t ->
  onfindpeer st req
  = (st, Reply (match router st !! hex t with Some e => Some (record e) | None => None end))
  /\ (forall (areq : request) (tok sg : bytes) (ann : announce) (p : peer),
       target areq = Some t -> token areq = Some tok ->
       decode decode_announce (value areq) = Some ann -> ann_peer ann = Some p ->
       ann_signature ann = Some sg ->
       crypto_sign_verify_detached sg (crypto_generichash_batch
           [t; dht_id; tok; encode_peer p; default EMPTY (ann_refresh ann)] NS_ANNOUNCE)
         (publicKey p) = true ->
       crypto_generichash (publicKey p) = t ->
       (onfindpeer (onannounce st areq).1 req).2
       = Reply (Some (encode_peer (truncate_relays p)))).
Proof.
  intros Ht. split.
  - unfold onfindpeer, router_get. rewrite Ht. reflexivity.
  - intros areq tok sg ann p Hat Htok Hdec Hp Hsg Hv Hh.
    unfold onfindpeer, router_get. rewrite Ht. simpl.
    erewrite onannounce_self_installs by eassumption. reflexivity.
Qed.

(** C4: lookup for a target replies with at most 20 records: the (at
    most 20) LRU records stored for the target, followed by the local
    Router entry's record only when the Router has an entry for the
    target and fewer than 20 LRU records were returned; when there is no
    record at all the reply payload is null. *)
Theorem onlookup_at_most_20 (st : persistent) (req : request) (t : bytes) :
  target req = Some t ->
  let k := hex t in
  let recs := rc_get k 20 (records st) in
  exists out : list bytes,
    onlookup st req
    = (st, Reply (match out with [] => None | _ => Some (encode_rawArray out) end)) /\
    length recs <= 20 /\
    length out <= 20 /\
    (out = recs \/
     (length recs < 20 /\ exists fwd, router st !! k = Some fwd /\ out = recs ++ [record fwd])) /\
    (forall fwd, router st !! k = Some fwd -> length recs < 20 -> out = recs ++ [record fwd]) /\
    (out = [] <-> recs = [] /\ router st !! k = None).
Proof.
  intros Ht k recs.
  assert (Hlen : length recs <= 20) by (unfold recs, rc_get; rewrite length_take; lia).
  unfold onlookup, router_get. rewrite Ht. simpl. fold k. fold recs.
  destruct (router st !! k) as [fwd|] eqn:Hr.
  - destruct (length recs <? 20) eqn:Hl.
    + apply Nat.ltb_lt in Hl. exists (recs ++ [record fwd]).
      refine (conj eq_refl (conj Hlen (conj _ (conj _ (conj _ _))))).
      * rewrite length_app. simpl. lia.
      * right. split; [lia|]. exists fwd. split; reflexivity.
      * intros fwd' [= <-] _. reflexivity.
      * split; [intros Hn; apply (f_equal length) in Hn; rewrite length_app in Hn; simpl in Hn; lia
               | intros [_ Hn]; discriminate].
    + apply Nat.ltb_ge in Hl. exists recs.
      refine (conj eq_refl (conj Hlen (conj Hlen (conj _ (conj _ _))))).
      * left. reflexivity.
      * intros f _ Hlt. lia.
      * split; [intros Hn; rewrite Hn in Hl; simpl in Hl; lia | intros [_ Hn]; discriminate].
  - exists recs.
    refine (conj eq_refl (conj Hlen (conj Hlen (conj _ (conj _ _))))).
    + left. reflexivity.
    + intros fwd Hn. discriminate.
    + split; [intros Hn; split; [exact Hn | reflexivity] | intros [Hn _]; exact Hn].
Qed.

(** C5 (the refresh path is unreachable): an announce that carries a
    refresh token but no peer, with target and token present, makes
    onannounce raise whenever the encoder of [m.peer] raises on an
    absent peer: annSignable encodes [ann.peer] before the [!peer] test,
    so the handler never reaches [_onrefresh], whatever the refresh cache
    holds, and neither replays nor rotates nor replies. *)
Theorem onannounce_refresh_raises (st : persistent) (req : request) (t tok rf : bytes)
    (ann : announce) :
  target req = Some t -> token req = Some tok ->
  decode decode_announce (value req) = Some ann ->
  ann_peer ann = None -> ann_refresh ann = Some rf ->
  encode_absent_peer = None ->
  onannounce st req = (st, Raises).
Proof.
  intros Ht Htk Hd Hp _ Hn. unfold onannounce. rewrite Ht, Htk, Hd.
  unfold annSignable, encode_peer_js. rewrite Hp, Hn. reflexivity.
Qed.

(** C6: unannounce acts only when an UNANNOUNCE-namespaced signature over
    BLAKE2b([target, nodeId, token, encode(peer), refresh or empty],
    NS_UNANNOUNCE) verifies under peer.publicKey; then it deletes the
    Router entry of the target iff BLAKE2b(publicKey) = target, removes
    the (target, publicKey) tuple from the LRU and replies. *)
Theorem onunannounce_verified_removes (st : persistent) (req : request) :
  (onunannounce st req <> (st, Silent) ->
     exists t tok unann p sg,
       target req = Some t /\ token req = Some tok /\
       decode decode_announce (value req) = Some unann /\
       ann_peer unann = Some p /\ ann_signature unann = Some sg /\
       crypto_sign_verify_detached sg (crypto_generichash_batch
         [t; dht_id; tok; encode_peer p; default EMPTY (ann_refresh unann)] NS_UNANNOUNCE)
         (publicKey p) = true) /\
  (forall t tok unann p sg,
     target req = Some t -> token req = Some tok ->
     decode decode_announce (value req) = Some unann ->
     ann_peer unann = Some p -> ann_signature unann = Some sg ->
     crypto_sign_verify_detached sg (crypto_generichash_batch
       [t; dht_id; tok; encode_peer p; default EMPTY (ann_refresh unann)] NS_UNANNOUNCE)
       (publicKey p) = true ->
     let '(st', resp) := onunannounce st req in
     resp = Reply None /\
     (crypto_generichash (publicKey p) = t -> router st' = delete (hex t) (router st)) /\
     (crypto_generichash (publicKey p) <> t -> router st' = router st) /\
     records st' = rc_remove (hex t) (publicKey p) (records st) /\
     refreshes st' = refreshes st /\ mutables st' = mutables st /\
     immutables st' = immutables st).
Proof.
  split.
  - unfold onunannounce.
    destruct (target req) as [t|]; [|tauto]. destruct (token req) as [tok|]; [|tauto].
    destruct (decode decode_announce (value req)) as [unann|] eqn:Hd; [|tauto].
    destruct (ann_peer unann) as [p|] eqn:Hp; [|tauto].
    destruct (ann_signature unann) as [sg|] eqn:Hsg; [|tauto].
    unfold annSignable, encode_peer_js. rewrite Hp.
    destruct (crypto_sign_verify_detached sg _ (publicKey p)) eqn:Hv; [|tauto].
    intros _. exists t, tok, unann, p, sg. done.
  - intros t tok unann p sg Ht Htok Hd Hp Hsg Hv.
    unfold onunannounce. rewrite Ht, Htok, Hd, Hp, Hsg.
    unfold annSignable, encode_peer_js. rewrite Hp. rewrite Hv.
    unfold unannounce, bytes_eqb. simpl.
    split; [reflexivity|]. split; [|split].
    + intros Hh. rewrite bool_decide_eq_true_2 by exact Hh. reflexivity.
    + intros Hh. rewrite bool_decide_eq_false_2 by exact Hh. reflexivity.
    + done.
Qed.

(** C7 (as amended): an immutable put carrying target, token and value
    stores the value under the target and replies iff BLAKE2b(value)
    equals the target; otherwise it is dropped without a reply and the
    store is unchanged, so a later immutable get for the target replies
    with whatever was stored there before (null when nothing was). *)
Theorem onimmutableput_accepts_iff_hash (st : persistent) (req : request) (t tok v : bytes) :
  target req = Some t -> token req = Some tok -> value req = Some v ->
  (crypto_generichash v = t ->
     onimmutableput st req
     = (set_immutables (<[hex t := v]> (immutables st)) st, Reply None)) /\
  (crypto_generichash v <> t -> onimmutableput st req = (st, Silent)) /\
  (forall greq : request, target greq = Some t ->
     (onimmutableget (onimmutableput st req).1 greq).2
     = Reply (if bool_decide (crypto_generichash v = t) then Some v
              else immutables st !! hex t)).
Proof.
  intros Ht Htok Hv.
  assert (Hput : onimmutableput st req =
    if bool_decide (crypto_generichash v = t)
    then (set_immutables (<[hex t := v]> (immutables st)) st, Reply None)
    else (st, Silent)).
  { unfold onimmutableput. rewrite Ht, Htok, Hv. unfold bytes_eqb.
    case_bool_decide as Hh; simpl; [subst t; reflexivity | reflexivity]. }
  split; [|split].
  - intros Hh. rewrite Hput. by rewrite bool_decide_eq_true_2.
  - intros Hh. rewrite Hput. by rewrite bool_decide_eq_false_2.
  - intros greq Hg. rewrite Hput. unfold onimmutableget. rewrite Hg.
    case_bool_decide; simpl; [by rewrite lookup_insert_eq | reflexivity].
Qed.
(** C2 (code_bug): onmutableput never answers SEQ_REUSED nor
    SEQ_TOO_LOW.  The stored record is re-encoded instead of decoded, so
    [existing] is a Buffer whose [seq] and [value] are undefined and
    neither conflict check can fire: a put with the stored seq and another
    value, or with a lower seq, is stored like any other (or the
    re-encoding raises). *)
Theorem onmutableput_never_sends_seq_errors (st : persistent) (req : request) (e : error_code) :
  (onmutableput st req).2 <> Error e.
Proof.
  unfold onmutableput.
  destruct (target req), (token req), (value req); simpl; try discriminate.
  destruct (decode_mutablePutRequest _) as [mp|]; simpl; [|discriminate].
  destruct (negb _); simpl; [discriminate|].
  destruct (mp_value mp) as [v|]; simpl; [|discriminate].
  destruct (negb _); simpl; [discriminate|].
  destruct (mutables st !! _) as [local|]; simpl; [|discriminate].
  destruct (encode_mutableGetResponse_buffer local); simpl; discriminate.
Qed.

(** Every put on a key that already holds a record is accepted as a new
    one, whatever the stored seq and value, unless re-encoding the stored
    Buffer raises. *)
Lemma onmutableput_existing_key (st : persistent) (req : request) (t tok v local : bytes)
    (mp : mutable_put_request) :
  target req = Some t -> token req = Some tok ->
  decode decode_mutablePutRequest (value req) = Some mp ->
  crypto_generichash (mp_publicKey mp) = t -> mp_value mp = Some v ->
  verifyMutable (mp_signature mp) (mp_seq mp) v (mp_publicKey mp) = true ->
  mutables st !! hex t = Some local ->
  onmutableput st req =
    match encode_mutableGetResponse_buffer local with
    | None => (st, Raises)
    | Some _ =>
        (set_mutables (<[hex t := encode_mutableGetResponse (mp_seq mp) v (mp_signature mp)]>
                         (mutables st)) st, Reply None)
    end.
Proof.
  intros Ht Htok Hd Hh Hv Hsig Hl. unfold onmutableput. rewrite Ht, Htok.
  destruct (value req) as [b|]; [|discriminate]. simpl in Hd |- *. rewrite Hd.
  unfold bytes_eqb. rewrite bool_decide_eq_true_2 by exact Hh. simpl.
  rewrite Hv, Hsig. simpl. rewrite Hh, Hl.
  destruct (encode_mutableGetResponse_buffer local); reflexivity.
Qed.


End Claims.

Example onannounce_self_runs :
  onfindpeer (onannounce (E := E_self) empty_store (ann_req [x0a; x0b])).1
             (ann_req [x0a; x0b])
  = ((onannounce (E := E_self) empty_store (ann_req [x0a; x0b])).1,
     Reply (Some [x0a; x0b; x00; x00; x00])).
Proof. vm_compute. reflexivity. Qed.

Lemma onannounce_peer_stores_verified_witness :
  target (ann_req [x0a; x0b]) = Some [x0a; x0b] /\
  token (ann_req [x0a; x0b]) = Some [x07] /\
  decode (@decode_announce E_self) (value (ann_req [x0a; x0b])) = Some (self_announce None) /\
  ann_peer (self_announce None) = Some peer0 /\
  (onannounce (E := E_self) empty_store (ann_req [x0a; x0b])).2 = Reply None /\
  router (onannounce (E := E_self) empty_store (ann_req [x0a; x0b])).1
  = <[hex [x0a; x0b] := {| relay := addr0; record := self_record;
                          onconnect := None; onholepunch := None |}]> ∅ /\
  length (relayAddresses (truncate_relays peer0)) = 3.
Proof.
  destruct (onannounce_peer_stores_verified (E := E_self) empty_store (ann_req [x0a; x0b])
              [x0a; x0b] [x07] (self_announce None) peer0
              eq_refl eq_refl eq_refl eq_refl) as [_ H].
  specialize (H ltac:(vm_compute; reflexivity)). cbv zeta in H. revert H.
  destruct (onannounce (E := E_self) empty_store (ann_req [x0a; x0b])) as [st' resp].
  intros (Hr & _ & _ & _ & Hself & _).
  destruct (Hself ltac:(reflexivity)) as (Hrt & _ & _).
  repeat split; try assumption; vm_compute; reflexivity.
Defined.

Lemma onfindpeer_replies_router_record_witness :
  target (ann_req [x0a; x0b]) = Some [x0a; x0b] /\
  onfindpeer empty_store (ann_req [x0a; x0b]) = (empty_store, Reply None) /\
  (onfindpeer (onannounce (E := E_self) empty_store (ann_req [x0a; x0b])).1
     (ann_req [x0a; x0b])).2 = Reply (Some self_record).
Proof.
  destruct (onfindpeer_replies_router_record (E := E_self) empty_store (ann_req [x0a; x0b])
              [x0a; x0b] eq_refl) as [H1 H2].
  split; [reflexivity|]. split.
  - rewrite H1. reflexivity.
  - exact (H2 (ann_req [x0a; x0b]) [x07] _ (self_announce None) peer0
             eq_refl eq_refl eq_refl eq_refl eq_refl
             ltac:(vm_compute; reflexivity) ltac:(reflexivity)).
Defined.

Lemma onlookup_at_most_20_witness :
  target (ann_req [x0a; x0b]) = Some [x0a; x0b] /\
  (onlookup (E := E_self) store_with_refresh (ann_req [x0a; x0b])).2
  = Reply (Some self_record) /\
  length (rc_get (hex [x0a; x0b]) 20 (records store_with_refresh)) <= 20.
Proof.
  destruct (onlookup_at_most_20 (E := E_self) store_with_refresh (ann_req [x0a; x0b])
              [x0a; x0b] eq_refl) as (out & Hon & Hlen & _ & _ & Hfwd & _).
  split; [reflexivity|]. split; [|exact Hlen].
  rewrite Hon. rewrite (Hfwd _ eq_refl ltac:(vm_compute; lia)). reflexivity.
Defined.

Lemma onannounce_refresh_raises_witness :
  refreshes store_with_refresh !! hex (@crypto_generichash E_refresh_null [x05]) <> None /\
  onannounce (E := E_refresh_null) store_with_refresh (ann_req [x0a; x0b])
  = (store_with_refresh, Raises).
Proof.
  split; [vm_compute; discriminate|].
  exact (onannounce_refresh_raises (E := E_refresh_null) store_with_refresh (ann_req [x0a; x0b])
           [x0a; x0b] [x07] [x05] refresh_only eq_refl eq_refl eq_refl eq_refl eq_refl eq_refl).
Defined.

Lemma onunannounce_verified_removes_witness :
  target (ann_req [x0a; x0b]) = Some [x0a; x0b] /\
  decode (@decode_announce E_unann) (value (ann_req [x0a; x0b])) = Some self_unannounce /\
  (onunannounce (E := E_unann) store_with_refresh (ann_req [x0a; x0b])).2 = Reply None /\
  router (onunannounce (E := E_unann) store_with_refresh (ann_req [x0a; x0b])).1 = ∅.
Proof.
  destruct (onunannounce_verified_removes (E := E_unann) store_with_refresh
              (ann_req [x0a; x0b])) as [_ H].
  specialize (H [x0a; x0b] [x07] self_unannounce peer0 _ eq_refl eq_refl eq_refl eq_refl
                eq_refl ltac:(vm_compute; reflexivity)).
  revert H.
  destruct (onunannounce (E := E_unann) store_with_refresh (ann_req [x0a; x0b])) as [st' resp].
  intros (Hr & Hdel & _).
  split; [reflexivity|]. split; [reflexivity|]. split; [exact Hr|].
  simpl. rewrite (Hdel eq_refl). vm_compute. reflexivity.
Defined.

Lemma onimmutableput_accepts_iff_hash_witness :
  target (put_req [x01] [x01]) = Some [x01] /\
  @crypto_generichash E_none [x01] = [x01] /\
  (onimmutableget (onimmutableput (E := E_none) empty_store (put_req [x01] [x01])).1
     (ann_req [x01])).2 = Reply (Some [x01]).
Proof.
  destruct (onimmutableput_accepts_iff_hash (E := E_none) empty_store (put_req [x01] [x01])
              [x01] [x07] [x01] eq_refl eq_refl eq_refl) as (_ & _ & H).
  split; [reflexivity|]. split; [reflexivity|].
  rewrite (H (ann_req [x01]) eq_refl). vm_compute. reflexivity.
Defined.

(** C7 as stated fails: a put whose value does not hash to the target
    is dropped, but a record stored earlier under that target is still
    returned by a later get. *)
Lemma onimmutableput_mismatch_get_not_null :
  ~ (forall (E : Env) (st : persistent) (req : request) (t tok v : bytes),
       target req = Some t -> token req = Some tok -> value req = Some v ->
       crypto_generichash v <> t ->
       (onimmutableput st req).2 = Silent /\
       forall greq : request, target greq = Some t ->
         (onimmutableget (onimmutableput st req).1 greq).2 = Reply None).
Proof.
  intros H.
  destruct (H E_none store_with_immutable (put_req [x01] [x02]) [x01] [x07] [x02]
              eq_refl eq_refl eq_refl ltac:(vm_compute; discriminate)) as [_ Hg].
  specialize (Hg (ann_req [x01]) eq_refl). vm_compute in Hg. discriminate.
Qed.



(** The defect behind C2 on a concrete put: with (seq 1, "a") stored,
    a put of (seq 1, "b") is stored and answered, and so is a later put
    of seq 0. *)
Example onmutableput_seq_reuse_accepted :
  onmutableput (E := E_mput 1 [x62]) store_with_mutable (put_req [x0a] [x00])
  = (set_mutables {[hex [x0a] := @encode_mutableGetResponse E_none 1 [x62] (mput_sig 1 [x62])]}
       store_with_mutable, Reply None) /\
  (onmutableput (E := E_mput 0 [x63]) store_with_mutable (put_req [x0a] [x00])).2 = Reply None.
Proof. split; vm_compute; reflexivity. Qed.

Module HolepunchFacts.
Import Holepunch.

Lemma reach_closed (sh ch : bool) (ws : list world) (w w' : world) :
  closed_under sh ch ws = true -> w ∈ ws -> reach sh ch w w' -> w' ∈ ws.
Proof.
  intros Hc Hw Hr. induction Hr as [w|w w1 w2 Hin Hr IH]; [exact Hw|].
  apply IH. unfold closed_under in Hc. rewrite forallb_forall in Hc.
  apply list_elem_of_In in Hw. specialize (Hc w Hw).
  rewrite forallb_forall in Hc. apply (bool_decide_eq_true_1 _ (Hc w1 Hin)).
Qed.

Lemma veto_reachable (ch : bool) (w : world) :
  reach false ch init w -> veto_ok false ch w = true.
Proof.
  intros Hr.
  set (ws := explore false ch 100 [init] []).
  assert (Hc : closed_under false ch ws = true) by (destruct ch; vm_compute; reflexivity).
  assert (Hi : init ∈ ws)
    by (apply (bool_decide_eq_true_1 (init ∈ ws)); destruct ch; vm_compute; reflexivity).
  assert (Hall : forallb (veto_ok false ch) ws = true) by (destruct ch; vm_compute; reflexivity).
  pose proof (reach_closed _ _ _ _ _ Hc Hi Hr) as Hw.
  rewrite forallb_forall in Hall. apply Hall. by apply list_elem_of_In.
Qed.

Lemma reach_of_path (sh ch : bool) (ws : list world) (w : world) :
  path_ok sh ch w ws = true -> reach sh ch w (List.last ws w).
Proof.
  revert w. induction ws as [|w1 ws IH]; intros w Hp; simpl in Hp.
  - apply reach_refl.
  - apply andb_true_iff in Hp as [Hin Hp].
    apply bool_decide_eq_true_1 in Hin. apply list_elem_of_In in Hin.
    eapply reach_step; [exact Hin|].
    replace (List.last (w1 :: ws) w) with (List.last ws w1).
    + apply IH. exact Hp.
    + clear. revert w1. induction ws as [|w2 ws IH]; intros w1; [reflexivity|].
      simpl. rewrite IH. destruct ws; reflexivity.
Qed.

(** C9 (modelled from the spec): when the server's holepunch hook
    returns false, in every world reachable from the start of a
    connection the server's onConnection has never fired and the client
    socket has never opened, and once the hook has been called every
    final world has the client socket closed after emitting exactly a
    HOLEPUNCH_ABORTED error followed by close. *)
Theorem server_holepunch_veto_aborts (ch : bool) (w : world) :
  reach false ch init w ->
  server_connections w = 0 /\ (EvOpen ∉ client_events w) /\
  (server_hook_calls w <> 0 -> steps false ch w = [] ->
     client_events w = [EvError HOLEPUNCH_ABORTED; EvClose] /\ cphase w = CClosed).
Proof.
  intros Hr. pose proof (veto_reachable ch w Hr) as Hok. unfold veto_ok in Hok.
  apply andb_true_iff in Hok as [Hok Hend]. apply andb_true_iff in Hok as [H0 Hopen].
  apply bool_decide_eq_true_1 in H0. apply bool_decide_eq_true_1 in Hopen.
  split; [exact H0|]. split; [exact Hopen|].
  intros Hc Hs. rewrite bool_decide_eq_false_2 in Hend by exact Hc.
  rewrite Hs in Hend. apply andb_true_iff in Hend as [He Hp].
  split; [exact (bool_decide_eq_true_1 _ He) | exact (bool_decide_eq_true_1 _ Hp)].
Qed.

Lemma server_holepunch_veto_aborts_witness :
  reach false true init veto_run_end /\
  server_hook_calls veto_run_end = 1 /\ steps false true veto_run_end = [] /\
  client_events veto_run_end = [EvError HOLEPUNCH_ABORTED; EvClose] /\
  cphase veto_run_end = CClosed /\ server_connections veto_run_end = 0.
Proof.
  assert (Hr : reach false true init veto_run_end)
    by (apply reach_of_path; vm_compute; reflexivity).
  destruct (server_holepunch_veto_aborts true veto_run_end Hr) as (H0 & _ & Hend).
  assert (Hc : server_hook_calls veto_run_end = 1) by (vm_compute; reflexivity).
  assert (Hs : steps false true veto_run_end = []) by (vm_compute; reflexivity).
  destruct (Hend ltac:(rewrite Hc; discriminate) Hs) as [He Hp].
  repeat split; assumption.
Defined.
End HolepunchFacts.

Section Extras.
Context {E : Env}.

Lemma rc_remove_Forall (P : string * bytes * bytes -> Prop) k pk c :
  Forall P c -> Forall P (rc_remove k pk c).
Proof.
  rewrite !Forall_forall. intros H e He. apply list_elem_of_filter in He.
  apply H. apply He.
Qed.

Lemma onlookup_keeps (st : persistent) (req : request) : (onlookup st req).1 = st.
Proof. unfold onlookup. by destruct (target req). Qed.

Lemma onfindpeer_keeps (st : persistent) (req : request) : (onfindpeer st req).1 = st.
Proof. unfold onfindpeer. by destruct (target req). Qed.

Lemma onmutableget_keeps (st : persistent) (req : request) : (onmutableget st req).1 = st.
Proof.
  unfold onmutableget. destruct (target req), (value req); try done.
  destruct (decode_uint _); try done. destruct (mutables st !! _); try done.
  by destruct (decode_uint _).
Qed.

Lemma onimmutableget_keeps (st : persistent) (req : request) : (onimmutableget st req).1 = st.
Proof. unfold onimmutableget. by destruct (target req). Qed.

(** The outcomes of onannounce: the store is left as it is, or a refresh
    is replayed, or a verified announce is stored. *)
Lemma onannounce_shape (st : persistent) (req : request) :
  (exists resp, onannounce st req = (st, resp)) \/
  (exists rf, onannounce st req = _onrefresh st rf req) \/
  (exists t tok ann p sg, target req = Some t /\ token req = Some tok /\
     decode decode_announce (value req) = Some ann /\ ann_peer ann = Some p /\
     ann_signature ann = Some sg /\
     crypto_sign_verify_detached sg (crypto_generichash_batch
       [t; dht_id; tok; encode_peer p; default EMPTY (ann_refresh ann)] NS_ANNOUNCE)
       (publicKey p) = true /\
     onannounce st req = store_announce st req t ann p).
Proof.
  unfold onannounce.
  destruct (target req) as [t|]; [|left; eauto].
  destruct (token req) as [tok|]; [|left; eauto].
  destruct (decode decode_announce (value req)) as [ann|] eqn:Hd; [|left; eauto].
  destruct (annSignable t tok dht_id ann NS_ANNOUNCE) as [s|] eqn:Hs; [|left; eauto].
  destruct (ann_peer ann) as [p|] eqn:Hp.
  - destruct (ann_signature ann) as [sg|] eqn:Hsg; [|left; eauto].
    unfold annSignable, encode_peer_js in Hs. rewrite Hp in Hs. injection Hs as <-.
    destruct (crypto_sign_verify_detached sg _ (publicKey p)) eqn:Hv; [|left; eauto].
    right; right. exists t, tok, ann, p, sg. done.
  - destruct (ann_refresh ann) as [rf|]; [|left; eauto]. right; left; eauto.
Qed.

(** The outcomes of onunannounce. *)
Lemma onunannounce_shape (st : persistent) (req : request) :
  (exists resp, onunannounce st req = (st, resp)) \/
  (exists t pk, onunannounce st req = (unannounce st t pk, Reply None)).
Proof.
  unfold onunannounce.
  destruct (target req) as [t|]; [|left; eauto].
  destruct (token req) as [tok|]; [|left; eauto].
  destruct (decode decode_announce (value req)) as [ann|]; [|left; eauto].
  destruct (ann_peer ann) as [p|], (ann_signature ann) as [sg|]; try (left; eauto; fail).
  destruct (annSignable _ _ _ _ _); [|left; eauto].
  destruct (crypto_sign_verify_detached _ _ _); [right; eauto | left; eauto].
Qed.

(** The outcomes of onmutableput: the store is left as it is and no
    reply is sent, or a verified record is stored under the target. *)
Lemma onmutableput_shape (st : persistent) (req : request) :
  (exists resp, onmutableput st req = (st, resp) /\ resp <> Reply None) \/
  (exists t tok mp v, target req = Some t /\ token req = Some tok /\
     decode decode_mutablePutRequest (value req) = Some mp /\
     crypto_generichash (mp_publicKey mp) = t /\ mp_value mp = Some v /\
     verifyMutable (mp_signature mp) (mp_seq mp) v (mp_publicKey mp) = true /\
     onmutableput st req =
       (set_mutables (<[hex t := encode_mutableGetResponse (mp_seq mp) v (mp_signature mp)]>
                        (mutables st)) st, Reply None)).
Proof.
  unfold onmutableput.
  destruct (target req) as [t|]; [|left; eexists; split; [reflexivity|discriminate]].
  destruct (token req) as [tok|]; [|left; eexists; split; [reflexivity|discriminate]].
  destruct (value req) as [b|] eqn:Hb; [|left; eexists; split; [reflexivity|discriminate]].
  simpl. destruct (decode_mutablePutRequest b) as [mp|] eqn:Hd;
    [|left; eexists; split; [reflexivity|discriminate]].
  unfold bytes_eqb. destruct (bool_decide (crypto_generichash (mp_publicKey mp) = t)) eqn:Hh;
    simpl; [|left; eexists; split; [reflexivity|discriminate]].
  apply bool_decide_eq_true_1 in Hh.
  destruct (mp_value mp) as [v|] eqn:Hv; [|left; eexists; split; [reflexivity|discriminate]].
  destruct (verifyMutable _ _ _ _) eqn:Hs; simpl; [|left; eexists; split; [reflexivity|discriminate]].
  assert (Hacc : exists t0 tok0 mp0 v0, Some t = Some t0 /\ Some tok = Some tok0 /\
     Some mp = Some mp0 /\ crypto_generichash (mp_publicKey mp0) = t0 /\
     mp_value mp0 = Some v0 /\
     verifyMutable (mp_signature mp0) (mp_seq mp0) v0 (mp_publicKey mp0) = true /\
     ((set_mutables (<[hex (crypto_generichash (mp_publicKey mp)) :=
          encode_mutableGetResponse (mp_seq mp) v (mp_signature mp)]> (mutables st)) st,
       Reply None) : persistent * response) =
     (set_mutables (<[hex t0 := encode_mutableGetResponse (mp_seq mp0) v0 (mp_signature mp0)]>
                      (mutables st)) st, Reply None))
    by (exists t, tok, mp, v; rewrite Hh; done).
  destruct (mutables st !! _) as [local|]; [|right; exact Hacc].
  destruct (encode_mutableGetResponse_buffer local) as [ex|];
    [|left; eexists; split; [reflexivity|discriminate]].
  unfold seq_reused_check. simpl. right. exact Hacc.
Qed.

(** The outcomes of onimmutableput. *)
Lemma onimmutableput_shape (st : persistent) (req : request) :
  onimmutableput st req = (st, Silent) \/
  (exists t tok v, target req = Some t /\ token req = Some tok /\ value req = Some v /\
     crypto_generichash v = t /\
     onimmutableput st req = (set_immutables (<[hex t := v]> (immutables st)) st, Reply None)).
Proof.
  unfold onimmutableput.
  destruct (target req) as [t|], (token req) as [tok|], (value req) as [v|]; auto.
  unfold bytes_eqb. case_bool_decide as Hh; simpl; [|auto].
  right. exists t, tok, v. subst t. done.
Qed.

Lemma store_announce_frame (st : persistent) (req : request) (t : bytes) (ann : announce) (p : peer) :
  mutables (store_announce st req t ann p).1 = mutables st /\
  immutables (store_announce st req t ann p).1 = immutables st.
Proof.
  unfold store_announce. destruct (bytes_eqb _ _), (ann_refresh ann); done.
Qed.

Lemma onrefresh_frame (st : persistent) (tok : bytes) (req : request) :
  mutables (_onrefresh st tok req).1 = mutables st /\
  immutables (_onrefresh st tok req).1 = immutables st.
Proof.
  unfold _onrefresh. destruct (refreshes st !! _) as [r|]; [|done].
  destruct (rf_announceSelf r); done.
Qed.

(** The frame of every handler, used by the invariants below. *)
Lemma dispatch_frame (h : handler) (st : persistent) (req : request) :
  let st' := (dispatch h st req).1 in
  (is_write h = false -> st' = st) /\
  (h <> HMutablePut -> mutables st' = mutables st) /\
  (h <> HImmutablePut -> immutables st' = immutables st) /\
  ((h = HMutablePut \/ h = HImmutablePut) ->
     router st' = router st /\ records st' = records st /\ refreshes st' = refreshes st) /\
  (forall k, (forall t, target req = Some t -> k <> hex t) ->
     mutables st' !! k = mutables st !! k /\ immutables st' !! k = immutables st !! k).
Proof.
  cbv zeta. destruct h; simpl.
  - rewrite onlookup_keeps. done.
  - rewrite onfindpeer_keeps. done.
  - destruct (onannounce_shape st req) as [(resp & ->) | [(rf & ->) | (t & tok & ann & p & sg & Ht & _ & _ & _ & _ & _ & ->)]].
    + done.
    + destruct (onrefresh_frame st rf req) as [-> ->].
      split; [discriminate|]. split; [done|]. split; [done|]. split; [intros [?|?]; discriminate|].
      done.
    + destruct (store_announce_frame st req t ann p) as [-> ->].
      split; [discriminate|]. split; [done|]. split; [done|]. split; [intros [?|?]; discriminate|].
      done.
  - destruct (onunannounce_shape st req) as [(resp & ->) | (t & pk & ->)]; [done|].
    unfold unannounce. simpl.
    split; [discriminate|]. split; [done|]. split; [done|]. split; [intros [?|?]; discriminate|].
    done.
  - rewrite onmutableget_keeps. done.
  - destruct (onmutableput_shape st req) as [(resp & -> & _) | (t & tok & mp & v & Ht & _ & _ & _ & _ & _ & ->)];
      [done|].
    simpl. split; [discriminate|]. split; [congruence|]. split; [done|]. split; [done|].
    intros k Hk. split; [|done]. rewrite lookup_insert_ne; [done|].
    intros Heq. apply (Hk t Ht). rewrite Heq. reflexivity.
  - rewrite onimmutableget_keeps. done.
  - destruct (onimmutableput_shape st req) as [-> | (t & tok & v & Ht & _ & _ & _ & ->)]; [done|].
    simpl. split; [discriminate|]. split; [done|]. split; [congruence|]. split; [done|].
    intros k Hk. split; [done|]. rewrite lookup_insert_ne; [done|].
    intros Heq. apply (Hk t Ht). rewrite Heq. reflexivity.
Qed.

Lemma store_announce_wf (st : persistent) (req : request) (t : bytes) (ann : announce) (p0 : peer) :
  announces_wf st -> announces_wf (store_announce st req t ann p0).1.
Proof.
  intros (Hr & Hc & Hf).
  destruct (truncate_relays_spec p0) as (_ & _ & Hlen).
  unfold store_announce.
  destruct (bytes_eqb (crypto_generichash (publicKey (truncate_relays p0))) t) eqn:Hs.
  - unfold bytes_eqb in Hs. apply bool_decide_eq_true_1 in Hs.
    assert (Hst : announces_wf (set_records (rc_remove (hex t) (publicKey (truncate_relays p0))
               (records st)) (set_router (<[hex t := forward_entry req
                  (encode_peer (truncate_relays p0))]> (router st)) st))).
    { split; [|split]; simpl.
      - apply map_Forall_insert_2; [|exact Hr].
        exists (truncate_relays p0). rewrite Hs. done.
      - apply rc_remove_Forall. exact Hc.
      - exact Hf. }
    destruct (ann_refresh ann) as [rf|]; simpl; [|exact Hst].
    destruct Hst as (Hr' & Hc' & Hf'). split; [exact Hr'|]. split; [exact Hc'|].
    simpl. apply map_Forall_insert_2; [|exact Hf'].
    exists (truncate_relays p0). simpl. rewrite Hs. done.
  - assert (Hst : announces_wf (set_records (rc_add (hex t) (publicKey (truncate_relays p0))
               (encode_peer (truncate_relays p0)) (records st)) st)).
    { split; [|split]; simpl.
      - exact Hr.
      - constructor; [exists (truncate_relays p0); done|]. apply rc_remove_Forall. exact Hc.
      - exact Hf. }
    destruct (ann_refresh ann) as [rf|]; simpl; [|exact Hst].
    destruct Hst as (Hr' & Hc' & Hf'). split; [exact Hr'|]. split; [exact Hc'|].
    simpl. apply map_Forall_insert_2; [|exact Hf'].
    exists (truncate_relays p0). simpl. split; [done|]. split; [done|]. discriminate.
Qed.

Lemma onrefresh_wf (st : persistent) (tok : bytes) (req : request) :
  announces_wf st -> announces_wf (_onrefresh st tok req).1.
Proof.
  intros (Hr & Hc & Hf). unfold _onrefresh.
  destruct (refreshes st !! hex (crypto_generichash tok)) as [r|] eqn:Hl; [|split; auto].
  pose proof (map_Forall_lookup_1 _ _ _ _ Hf Hl) as (p & Hrec & Hlen & Hself).
  destruct (rf_announceSelf r) eqn:Hs; simpl.
  - split; [|split].
    + apply map_Forall_insert_2; [|exact Hr]. exists p. rewrite (Hself eq_refl). done.
    + apply rc_remove_Forall. exact Hc.
    + apply map_Forall_insert_2; [exists p; rewrite Hs; done|].
      apply map_Forall_delete. exact Hf.
  - split; [|split].
    + exact Hr.
    + constructor; [exists p; done|]. apply rc_remove_Forall. exact Hc.
    + apply map_Forall_insert_2; [exists p; rewrite Hs; done|].
      apply map_Forall_delete. exact Hf.
Qed.

Lemma unannounce_wf (st : persistent) (t pk : bytes) :
  announces_wf st -> announces_wf (unannounce st t pk).
Proof.
  intros (Hr & Hc & Hf). unfold unannounce. split; [|split]; simpl.
  - destruct (bytes_eqb _ _); [apply map_Forall_delete|]; exact Hr.
  - apply rc_remove_Forall. exact Hc.
  - exact Hf.
Qed.

(** X1: every handler keeps the announce stores well formed: a Router
    entry the store installs is always the encoding of a peer whose
    public key hashes to the entry's key, and every record in the
    Router, the LRU and the refresh cache lists at most 3 relay
    addresses. *)
Theorem handlers_keep_announces_wf (h : handler) (st : persistent) (req : request) :
  announces_wf st -> announces_wf (dispatch h st req).1.
Proof.
  intros Hwf. destruct h; simpl.
  - by rewrite onlookup_keeps.
  - by rewrite onfindpeer_keeps.
  - destruct (onannounce_shape st req) as [(resp & ->) | [(rf & ->) | (t & tok & ann & p & sg & _ & _ & _ & _ & _ & _ & ->)]].
    + exact Hwf.
    + by apply onrefresh_wf.
    + by apply store_announce_wf.
  - destruct (onunannounce_shape st req) as [(resp & ->) | (t & pk & ->)]; [exact Hwf|].
    by apply unannounce_wf.
  - by rewrite onmutableget_keeps.
  - destruct (dispatch_frame HMutablePut st req) as (_ & _ & _ & Hf & _). simpl in Hf.
    destruct (Hf (or_introl eq_refl)) as (Hr & Hc & Hrf). unfold announces_wf. simpl.
    rewrite Hr, Hc, Hrf. exact Hwf.
  - by rewrite onimmutableget_keeps.
  - destruct (dispatch_frame HImmutablePut st req) as (_ & _ & _ & Hf & _). simpl in Hf.
    destruct (Hf (or_intror eq_refl)) as (Hr & Hc & Hrf). unfold announces_wf. simpl.
    rewrite Hr, Hc, Hrf. exact Hwf.
Qed.

(** X2: every handler keeps the mutable store authentic: each stored
    record is a mutableGetResponse {seq, value, signature} whose
    signature verifies over (seq, value) under a public key whose hash
    is the record's key. *)
Theorem handlers_keep_mutables_signed (h : handler) (st : persistent) (req : request) :
  mutables_wf (mutables st) -> mutables_wf (mutables (dispatch h st req).1).
Proof.
  intros Hwf. destruct (decide (h = HMutablePut)) as [->|Hne].
  - simpl. destruct (onmutableput_shape st req)
      as [(resp & -> & _) | (t & tok & mp & v & _ & _ & _ & Hh & _ & Hv & ->)]; [exact Hwf|].
    simpl. apply map_Forall_insert_2; [|exact Hwf].
    exists (mp_publicKey mp), (mp_seq mp), v, (mp_signature mp). rewrite Hh. done.
  - destruct (dispatch_frame h st req) as (_ & Hm & _). rewrite (Hm Hne). exact Hwf.
Qed.

(** X3: every handler keeps the immutable store content-addressed: each
    value is stored under the hex of its own hash. *)
Theorem handlers_keep_immutables_addressed (h : handler) (st : persistent) (req : request) :
  immutables_wf (immutables st) -> immutables_wf (immutables (dispatch h st req).1).
Proof.
  intros Hwf. destruct (decide (h = HImmutablePut)) as [->|Hne].
  - simpl. destruct (onimmutableput_shape st req)
      as [-> | (t & tok & v & _ & _ & _ & Hh & ->)]; [exact Hwf|].
    simpl. apply map_Forall_insert_2; [|exact Hwf]. simpl. rewrite Hh. done.
  - destruct (dispatch_frame h st req) as (_ & _ & Hm & _). rewrite (Hm Hne). exact Hwf.
Qed.


End Extras.

Section Extras2.
Context {E : Env}.

(** A verified announce carrying a peer is stored by [store_announce]. *)
Lemma onannounce_verified (st : persistent) (req : request) (t tok sg : bytes)
    (ann : announce) (p : peer) :
  target req = Some t -> token req = Some tok ->
  decode decode_announce (value req) = Some ann -> ann_peer ann = Some p ->
  ann_signature ann = Some sg ->
  crypto_sign_verify_detached sg (crypto_generichash_batch
    [t; dht_id; tok; encode_peer p; default EMPTY (ann_refresh ann)] NS_ANNOUNCE)
    (publicKey p) = true ->
  onannounce st req = store_announce st req t ann p.
Proof.
  intros Ht Htok Hd Hp Hsg Hv. unfold onannounce. rewrite Ht, Htok, Hd.
  unfold annSignable, encode_peer_js. rewrite Hp, Hsg. simpl. rewrite Hv. reflexivity.
Qed.

Lemma store_announce_reply (st : persistent) (req : request) (t : bytes) (ann : announce) (p : peer) :
  (store_announce st req t ann p).2 = Reply None.
Proof. unfold store_announce. destruct (ann_refresh ann); reflexivity. Qed.

(** X5: a mutable put followed by a mutable get for the same target
    returns what the put stored: the stored mutableGetResponse when the
    requested seq is at most the put's seq, and null when it is higher
    (given that the leading uint of the stored encoding reads back as the
    put's seq). *)
Theorem mutable_put_then_get (st st' : persistent) (preq greq : request) (t qb v : bytes)
    (mp : mutable_put_request) (q : N) :
  onmutableput st preq = (st', Reply None) ->
  target preq = Some t -> decode decode_mutablePutRequest (value preq) = Some mp ->
  mp_value mp = Some v ->
  decode_uint (encode_mutableGetResponse (mp_seq mp) v (mp_signature mp)) = Some (mp_seq mp) ->
  target greq = Some t -> value greq = Some qb -> decode_uint qb = Some q ->
  onmutableget st' greq =
    (st', Reply (if (mp_seq mp <? q)%N then None
                 else Some (encode_mutableGetResponse (mp_seq mp) v (mp_signature mp)))).
Proof.
  intros Hput Ht Hd Hv Hu Hg Hq Hqd.
  destruct (onmutableput_shape st preq)
    as [(resp & Heq & Hne) | (t' & tok & mp' & v' & Ht' & _ & Hd' & _ & Hv' & _ & Heq)].
  - rewrite Hput in Heq. injection Heq as _ Hr. subst resp. contradiction.
  - rewrite Ht in Ht'. injection Ht' as <-. rewrite Hd in Hd'. injection Hd' as <-.
    rewrite Hv in Hv'. injection Hv' as <-.
    rewrite Hput in Heq. injection Heq as Hst. subst st'.
    unfold onmutableget. rewrite Hg, Hq, Hqd. simpl. rewrite lookup_insert_eq, Hu. reflexivity.
Qed.

(** X6: a mutable put whose signature was made by signMutable with the
    secret key of its public key verifies (verifyMutable), and on a key
    with no stored record it is stored and answered. *)
Theorem signMutable_put_accepted {S : SignEnv} (st : persistent) (req : request)
    (t tok v sk : bytes) (mp : mutable_put_request) :
  (forall m, crypto_sign_verify_detached (crypto_sign_detached m sk) m (mp_publicKey mp) = true) ->
  target req = Some t -> token req = Some tok ->
  decode decode_mutablePutRequest (value req) = Some mp ->
  crypto_generichash (mp_publicKey mp) = t -> mp_value mp = Some v ->
  mp_signature mp = signMutable (mp_seq mp) v sk ->
  mutables st !! hex t = None ->
  verifyMutable (mp_signature mp) (mp_seq mp) v (mp_publicKey mp) = true /\
  onmutableput st req =
    (set_mutables (<[hex t := encode_mutableGetResponse (mp_seq mp) v (mp_signature mp)]>
                     (mutables st)) st, Reply None).
Proof.
  intros Hkp Ht Htok Hd Hh Hv Hsg Hnone.
  assert (Hver : verifyMutable (mp_signature mp) (mp_seq mp) v (mp_publicKey mp) = true)
    by (unfold verifyMutable; rewrite Hsg; unfold signMutable; apply Hkp).
  split; [exact Hver|].
  unfold onmutableput. rewrite Ht, Htok.
  destruct (value req) as [b|]; [|discriminate]. simpl in Hd |- *. rewrite Hd.
  unfold bytes_eqb. rewrite bool_decide_eq_true_2 by exact Hh. simpl.
  rewrite Hv, Hver. simpl. rewrite Hh, Hnone. reflexivity.
Qed.

(** X7: an announce carrying a peer whose signature was made by
    signAnnounce (for the same target, token and node id) with the
    secret key of the peer's public key is accepted: it is stored as a
    verified announce and answered. *)
Theorem signAnnounce_accepted {S : SignEnv} (st : persistent) (req : request)
    (t tok sk : bytes) (ann : announce) (p : peer) :
  (forall m, crypto_sign_verify_detached (crypto_sign_detached m sk) m (publicKey p) = true) ->
  target req = Some t -> token req = Some tok ->
  decode decode_announce (value req) = Some ann -> ann_peer ann = Some p ->
  ann_signature ann = signAnnounce t tok dht_id ann sk ->
  onannounce st req = store_announce st req t ann p /\ (onannounce st req).2 = Reply None.
Proof.
  intros Hkp Ht Htok Hd Hp Hsg.
  unfold signAnnounce, annSignable, encode_peer_js in Hsg. rewrite Hp in Hsg.
  assert (Hon : onannounce st req = store_announce st req t ann p).
  { eapply onannounce_verified; try eassumption. apply Hkp. }
  split; [exact Hon|]. rewrite Hon. apply store_announce_reply.
Qed.

(** X8: an unannounce whose signature was made by signUnannounce with
    the secret key of the peer's public key is accepted: it runs
    unannounce(target, publicKey) and replies. *)
Theorem signUnannounce_accepted {S : SignEnv} (st : persistent) (req : request)
    (t tok sk : bytes) (unann : announce) (p : peer) :
  (forall m, crypto_sign_verify_detached (crypto_sign_detached m sk) m (publicKey p) = true) ->
  target req = Some t -> token req = Some tok ->
  decode decode_announce (value req) = Some unann -> ann_peer unann = Some p ->
  ann_signature unann = signUnannounce t tok dht_id unann sk ->
  onunannounce st req = (unannounce st t (publicKey p), Reply None).
Proof.
  intros Hkp Ht Htok Hd Hp Hsg.
  unfold signUnannounce, annSignable, encode_peer_js in Hsg. rewrite Hp in Hsg.
  unfold onunannounce. rewrite Ht, Htok, Hd, Hp, Hsg.
  unfold annSignable, encode_peer_js. rewrite Hp. rewrite Hkp. reflexivity.
Qed.

Lemma onrefresh_no_raise (st : persistent) (tok : bytes) (req : request) :
  (_onrefresh st tok req).2 <> Raises.
Proof.
  unfold _onrefresh. destruct (refreshes st !! _) as [r|]; [|discriminate].
  destruct (rf_announceSelf r); discriminate.
Qed.

(** X12: a handler raises only in three cases: an announce whose payload
    has no peer when encoding an absent peer raises; a mutable put on a
    target that already holds a record when re-encoding that record
    raises; a mutable get whose stored record does not start with a
    decodable uint.  Lookup, findPeer, unannounce, immutable get and
    immutable put never raise. *)
Theorem handlers_raise_only (h : handler) (st : persistent) (req : request) :
  (dispatch h st req).2 = Raises ->
  (h = HAnnounce /\ encode_absent_peer = None /\
     exists ann, decode decode_announce (value req) = Some ann /\ ann_peer ann = None) \/
  (h = HMutablePut /\ exists t local, target req = Some t /\
     mutables st !! hex t = Some local /\ encode_mutableGetResponse_buffer local = None) \/
  (h = HMutableGet /\ exists t local, target req = Some t /\
     mutables st !! hex t = Some local /\ decode_uint local = None).
Proof.
  intros Hr. destruct h; simpl in Hr.
  - unfold onlookup in Hr. destruct (target req); discriminate.
  - unfold onfindpeer in Hr. destruct (target req); discriminate.
  - unfold onannounce in Hr.
    destruct (target req) as [t|], (token req) as [tok|]; try discriminate.
    destruct (decode decode_announce (value req)) as [ann|] eqn:Hd; [|discriminate].
    destruct (annSignable t tok dht_id ann NS_ANNOUNCE) as [s|] eqn:Hs.
    + destruct (ann_peer ann) as [p|].
      * destruct (ann_signature ann); [|discriminate].
        destruct (crypto_sign_verify_detached _ _ _); [|discriminate].
        rewrite store_announce_reply in Hr. discriminate.
      * destruct (ann_refresh ann); [|discriminate].
        exfalso. exact (onrefresh_no_raise _ _ _ Hr).
    + left. unfold annSignable, encode_peer_js in Hs.
      destruct (ann_peer ann) eqn:Hp; [discriminate|].
      destruct encode_absent_peer eqn:Ha; [discriminate|].
      split; [reflexivity|]. split; [reflexivity|]. exists ann. done.
  - unfold onunannounce in Hr.
    destruct (target req), (token req); try discriminate.
    destruct (decode decode_announce (value req)) as [ann|]; [|discriminate].
    destruct (ann_peer ann) as [p|] eqn:Hp, (ann_signature ann); try discriminate.
    unfold annSignable, encode_peer_js in Hr. rewrite Hp in Hr. simpl in Hr.
    destruct (crypto_sign_verify_detached _ _ _); discriminate.
  - unfold onmutableget in Hr.
    destruct (target req) as [t|], (value req) as [v|]; try discriminate.
    destruct (decode_uint v); [|discriminate].
    destruct (mutables st !! hex t) as [local|] eqn:Hl; [|discriminate].
    destruct (decode_uint local) eqn:Hu; [discriminate|].
    right; right. split; [reflexivity|]. exists t, local. done.
  - unfold onmutableput in Hr.
    destruct (target req) as [t|], (token req), (value req); try discriminate.
    simpl in Hr. destruct (decode_mutablePutRequest _) as [mp|]; [|discriminate].
    unfold bytes_eqb in Hr.
    destruct (bool_decide (crypto_generichash (mp_publicKey mp) = t)) eqn:Hh; simpl in Hr;
      [|discriminate].
    apply bool_decide_eq_true_1 in Hh.
    destruct (mp_value mp) as [v|]; [|discriminate].
    destruct (verifyMutable _ _ _ _); simpl in Hr; [|discriminate].
    rewrite Hh in Hr.
    destruct (mutables st !! hex t) as [local|] eqn:Hl; [|discriminate].
    destruct (encode_mutableGetResponse_buffer local) eqn:He.
    + unfold seq_reused_check in Hr. simpl in Hr. discriminate.
    + right; left. split; [reflexivity|]. exists t, local. done.
  - unfold onimmutableget in Hr. destruct (target req); discriminate.
  - unfold onimmutableput in Hr.
    destruct (target req), (token req), (value req); try discriminate.
    destruct (negb _); discriminate.
Qed.

End Extras2.

Module HolepunchExtras.
Import Holepunch HolepunchChecks HolepunchFacts.

Lemma client_veto_reachable (sh : bool) (w : world) :
  reach sh false init w -> client_veto_ok sh w = true.
Proof.
  intros Hr.
  set (ws := explore sh false 100 [init] []).
  assert (Hc : closed_under sh false ws = true) by (destruct sh; vm_compute; reflexivity).
  assert (Hi : init ∈ ws)
    by (apply (bool_decide_eq_true_1 (init ∈ ws)); destruct sh; vm_compute; reflexivity).
  assert (Hall : forallb (client_veto_ok sh) ws = true) by (destruct sh; vm_compute; reflexivity).
  pose proof (reach_closed _ _ _ _ _ Hc Hi Hr) as Hw.
  rewrite forallb_forall in Hall. apply Hall. by apply list_elem_of_In.
Qed.

(** X13 (protocol modelled from the spec): when the client's holepunch
    hook returns false, whatever the server's hook does, the server's
    connection handler never fires and the client socket never opens;
    every final world has the client closed after exactly one error
    followed by close, and that error is HOLEPUNCH_ABORTED once the
    server has answered the connect. *)
Theorem client_holepunch_veto_aborts (sh : bool) (w : world) :
  reach sh false init w ->
  server_connections w = 0 /\ (EvOpen ∉ client_events w) /\
  (steps sh false w = [] ->
     cphase w = CClosed /\
     exists e, client_events w = [EvError e; EvClose] /\
               (sphase w <> SListening -> e = HOLEPUNCH_ABORTED)).
Proof.
  intros Hr. pose proof (client_veto_reachable sh w Hr) as Hok. unfold client_veto_ok in Hok.
  apply andb_true_iff in Hok as [Hok Hend]. apply andb_true_iff in Hok as [H0 Hopen].
  split; [exact (bool_decide_eq_true_1 _ H0)|].
  split; [exact (bool_decide_eq_true_1 _ Hopen)|].
  intros Hs. rewrite Hs in Hend. apply andb_true_iff in Hend as [Hc He].
  split; [exact (bool_decide_eq_true_1 _ Hc)|].
  destruct (client_events w) as [|ev1 [|ev2 [|ev3 rest]]];
    [discriminate He | destruct ev1; discriminate He | | destruct ev1, ev2; discriminate He].
  destruct ev1 as [|e|]; [discriminate He | | discriminate He].
  destruct ev2; [discriminate He | discriminate He |].
  exists e. split; [reflexivity|]. intros Hl.
  apply orb_true_iff in He as [He|He].
  - apply bool_decide_eq_true_1 in He. contradiction.
  - exact (bool_decide_eq_true_1 _ He).
Qed.

Lemma client_holepunch_veto_aborts_witness :
  reach true false init client_veto_run_end /\
  steps true false client_veto_run_end = [] /\
  sphase client_veto_run_end = SClosed /\
  client_events client_veto_run_end = [EvError HOLEPUNCH_ABORTED; EvClose] /\
  server_connections client_veto_run_end = 0.
Proof.
  assert (Hr : reach true false init client_veto_run_end)
    by (apply reach_of_path; vm_compute; reflexivity).
  assert (Hs : steps true false client_veto_run_end = []) by (vm_compute; reflexivity).
  assert (Hp : sphase client_veto_run_end = SClosed) by (vm_compute; reflexivity).
  destruct (client_holepunch_veto_aborts true client_veto_run_end Hr) as (H0 & _ & Hend).
  destruct (Hend Hs) as (_ & e & He & Ha).
  rewrite (Ha ltac:(rewrite Hp; discriminate)) in He.
  repeat split; assumption.
Defined.

End HolepunchExtras.

Lemma handlers_keep_announces_wf_witness :
  announces_wf (E := E_self) store_with_refresh /\
  announces_wf (E := E_self) (dispatch (E := E_self) HAnnounce store_with_refresh
                               (ann_req [x0a; x0b])).1.
Proof.
  assert (Hwf : announces_wf (E := E_self) store_with_refresh).
  { split; [|split].
    - apply map_Forall_singleton. exists (truncate_relays peer0).
      split; [reflexivity|]. split; [vm_compute; lia|]. vm_compute. reflexivity.
    - constructor.
    - apply map_Forall_singleton. exists (truncate_relays peer0).
      split; [reflexivity|]. split; [vm_compute; lia|]. intros _. vm_compute. reflexivity. }
  split; [exact Hwf|].
  exact (handlers_keep_announces_wf (E := E_self) HAnnounce store_with_refresh _ Hwf).
Defined.

Lemma handlers_keep_mutables_signed_witness :
  mutables_wf (E := E_mput 2 [x62]) (mutables store_with_mutable) /\
  mutables_wf (E := E_mput 2 [x62])
    (mutables (dispatch (E := E_mput 2 [x62]) HMutablePut store_with_mutable
                 (put_req [x0a] [x00])).1).
Proof.
  assert (Hwf : mutables_wf (E := E_mput 2 [x62]) (mutables store_with_mutable)).
  { apply map_Forall_singleton. exists [x0a], 1%N, [x61], (mput_sig 1 [x61]).
    split; [reflexivity|]. split; [reflexivity|]. vm_compute. reflexivity. }
  split; [exact Hwf|].
  exact (handlers_keep_mutables_signed (E := E_mput 2 [x62]) HMutablePut store_with_mutable _ Hwf).
Defined.

Lemma handlers_keep_immutables_addressed_witness :
  immutables_wf (E := E_none) (immutables store_with_immutable) /\
  immutables_wf (E := E_none)
    (immutables (dispatch (E := E_none) HImmutablePut store_with_immutable
                   (put_req [x02] [x02])).1).
Proof.
  assert (Hwf : immutables_wf (E := E_none) (immutables store_with_immutable))
    by (apply map_Forall_singleton; reflexivity).
  split; [exact Hwf|].
  exact (handlers_keep_immutables_addressed (E := E_none) HImmutablePut store_with_immutable _ Hwf).
Defined.

Lemma mutable_put_then_get_witness :
  onmutableput (E := E_mget) empty_store (put_req [x0a] [x00])
  = ((onmutableput (E := E_mget) empty_store (put_req [x0a] [x00])).1, Reply None) /\
  (onmutableget (E := E_mget) (onmutableput (E := E_mget) empty_store (put_req [x0a] [x00])).1
     (req_with [x0a] [x07] [x01])).2
  = Reply (Some (@encode_mutableGetResponse E_mget 2 [x62] (mput_sig 2 [x62]))).
Proof.
  assert (Hput : onmutableput (E := E_mget) empty_store (put_req [x0a] [x00])
    = ((onmutableput (E := E_mget) empty_store (put_req [x0a] [x00])).1, Reply None))
    by (vm_compute; reflexivity).
  split; [exact Hput|].
  rewrite (mutable_put_then_get (E := E_mget) empty_store _ (put_req [x0a] [x00])
             (req_with [x0a] [x07] [x01]) [x0a] [x01] [x62] mput2 1 Hput eq_refl eq_refl eq_refl
             ltac:(vm_compute; reflexivity) eq_refl eq_refl ltac:(vm_compute; reflexivity)).
  reflexivity.
Defined.

Lemma signMutable_put_accepted_witness :
  mput_sig 1 [x62] = @signMutable (E_mput 1 [x62]) toy_sign 1 [x62] [x0a] /\
  (onmutableput (E := E_mput 1 [x62]) empty_store (put_req [x0a] [x00])).2 = Reply None.
Proof.
  assert (Hs : mput_sig 1 [x62] = @signMutable (E_mput 1 [x62]) toy_sign 1 [x62] [x0a])
    by (vm_compute; reflexivity).
  split; [exact Hs|].
  destruct (signMutable_put_accepted (E := E_mput 1 [x62]) (S := toy_sign) empty_store
              (put_req [x0a] [x00]) [x0a] [x07] [x62] [x0a]
              {| mp_publicKey := [x0a]; mp_seq := 1; mp_value := Some [x62];
                 mp_signature := mput_sig 1 [x62] |}
              ltac:(intros m; change (bytes_eqb (m ++ [x0a]) (m ++ [x0a]) = true);
                    unfold bytes_eqb; apply bool_decide_eq_true_2; reflexivity)
              eq_refl eq_refl eq_refl eq_refl eq_refl Hs eq_refl) as [_ Hput].
  rewrite Hput. reflexivity.
Defined.

Lemma signAnnounce_accepted_witness :
  ann_signature (self_announce None)
  = @signAnnounce E_self toy_sign [x0a; x0b] [x07] [x09] (self_announce None) [x0a; x0b] /\
  (onannounce (E := E_self) empty_store (ann_req [x0a; x0b])).2 = Reply None.
Proof.
  assert (Hs : ann_signature (self_announce None)
    = @signAnnounce E_self toy_sign [x0a; x0b] [x07] [x09] (self_announce None) [x0a; x0b])
    by (vm_compute; reflexivity).
  split; [exact Hs|].
  exact (proj2 (signAnnounce_accepted (E := E_self) (S := toy_sign) empty_store
           (ann_req [x0a; x0b]) [x0a; x0b] [x07] [x0a; x0b] (self_announce None) peer0
           ltac:(intros m; change (bytes_eqb (m ++ [x0a; x0b]) (m ++ [x0a; x0b]) = true);
                 unfold bytes_eqb; apply bool_decide_eq_true_2; reflexivity)
           eq_refl eq_refl eq_refl eq_refl Hs)).
Defined.

Lemma signUnannounce_accepted_witness :
  ann_signature self_unannounce
  = @signUnannounce E_unann toy_sign [x0a; x0b] [x07] [x09] self_unannounce [x0a; x0b] /\
  onunannounce (E := E_unann) store_with_refresh (ann_req [x0a; x0b])
  = (unannounce (E := E_unann) store_with_refresh [x0a; x0b] [x0a; x0b], Reply None).
Proof.
  assert (Hs : ann_signature self_unannounce
    = @signUnannounce E_unann toy_sign [x0a; x0b] [x07] [x09] self_unannounce [x0a; x0b])
    by (vm_compute; reflexivity).
  split; [exact Hs|].
  exact (signUnannounce_accepted (E := E_unann) (S := toy_sign) store_with_refresh
           (ann_req [x0a; x0b]) [x0a; x0b] [x07] [x0a; x0b] self_unannounce peer0
           ltac:(intros m; change (bytes_eqb (m ++ [x0a; x0b]) (m ++ [x0a; x0b]) = true);
                 unfold bytes_eqb; apply bool_decide_eq_true_2; reflexivity)
           eq_refl eq_refl eq_refl eq_refl Hs).
Defined.

Lemma handlers_raise_only_witness :
  (dispatch (E := E_raise) HMutableGet store_with_empty_mutable (req_with [x01] [x07] [x01])).2
  = Raises /\
  @decode_uint E_raise [] = None.
Proof.
  assert (Hr : (dispatch (E := E_raise) HMutableGet store_with_empty_mutable
                  (req_with [x01] [x07] [x01])).2 = Raises) by (vm_compute; reflexivity).
  split; [exact Hr|].
  destruct (handlers_raise_only (E := E_raise) HMutableGet store_with_empty_mutable _ Hr)
    as [(Hh & _) | [(Hh & _) | (_ & t & local & Ht & Hl & Hu)]]; try discriminate.
  injection Ht as <-. vm_compute in Hl. injection Hl as <-. exact Hu.
Defined.
